(** * VibeVault (iOS): security and sync core

    A shallow embedding of the Swift sources of the iOS client
    (BLEProtocol, CryptoService, DatabaseService, AuthService,
    KeychainService, SyncOrchestrator, BLECentralManager, VaultListView,
    AddEntryView, EntryDetailView), the properties of its specification
    that concern them, and further properties of the code.

    Conventions.
    - [Data] is a list of bytes; [Int], [UInt16] and [UInt32] values are
      integers in [Z], with the range checks of the Swift conversions
      written out.  A Swift runtime trap (failed integer conversion,
      index out of range) is the [None] of an [option].
    - A throwing function returns a [Result]; Swift's [Result<S, F>] is the
      same type.
    - A class instance is a record, and a mutating method returns the new
      record next to its result.
    - Calls into CryptoKit, Argon2Swift and Foundation are operations of the
      type classes of section "Platform interfaces". *)

From Stdlib Require Import ZArith Lia.
From Stdlib Require Import Strings.Byte Strings.Ascii.
From stdpp Require Import base option list gmap strings pretty sorting.

Local Open Scope Z_scope.

(** ** Swift values *)

Abbreviation Data := (list byte).

#[global] Instance byte_eq_dec : EqDecision byte.
Proof.
  intros a b. destruct (Byte.eqb a b) eqn:E.
  - left. apply Byte.byte_dec_bl, E.
  - right. intros ->. rewrite (Byte.byte_dec_lb eq_refl) in E. discriminate.
Defined.

Inductive Result (S F : Type) : Type :=
  | success (s : S)
  | failure (f : F).
Arguments success {S F} s.
Arguments failure {S F} f.

Definition UInt8_toZ (b : byte) : Z := Z.of_N (Byte.to_N b).

Definition UInt8_ofZ (z : Z) : byte :=
  default x00 (Byte.of_N (Z.to_N (z mod 256))).

(** [UInt16(n)] for an [Int] [n]: traps outside the range of the type. *)
Definition UInt16_init (n : Z) : option Z :=
  if decide (0 ≤ n ≤ 65535) then Some n else None.

(** [withUnsafeBytes(of: v.littleEndian)] for a 16-bit and a 32-bit value. *)
Definition littleEndian16 (v : Z) : Data :=
  [UInt8_ofZ v; UInt8_ofZ (Z.shiftr v 8)].

Definition littleEndian32 (v : Z) : Data :=
  [UInt8_ofZ v; UInt8_ofZ (Z.shiftr v 8);
   UInt8_ofZ (Z.shiftr v 16); UInt8_ofZ (Z.shiftr v 24)].

(** [load(as:)] of little-endian bytes. *)
Fixpoint loadLittleEndian (bs : Data) : Z :=
  match bs with
  | [] => 0
  | b :: bs' => Z.lor (UInt8_toZ b) (Z.shiftl (loadLittleEndian bs') 8)
  end.

(** [d.subdata(in: start..<end)].  Swift traps on a range with
    [end < start] or one that leaves the buffer; every call below is made
    with [0 <= start <= end <= d.count] (lemma [chunk_range_valid] for
    [chunkData]; the [count >= 8] guard for [fromBytes]). *)
Definition subdata (d : Data) (start end_ : Z) : Data :=
  take (Z.to_nat (end_ - start)) (drop (Z.to_nat start) d).

(** ** BLEProtocol.swift: CRC32 *)

Module CRC32.

Definition table_entry (i : Z) : Z :=
  Nat.iter 8
    (fun crc =>
       if decide (Z.land crc 1 ≠ 0)
       then Z.lxor 0xEDB88320 (Z.shiftr crc 1)
       else Z.shiftr crc 1)
    i.

Definition table : list Z :=
  Eval vm_compute in (table_entry <$> seqZ 0 256).

(** One iteration of the loop of [compute].  [index] is masked to eight
    bits, so [table[index]] is always inside the 256-entry table (lemma
    [table_index_in_range]) and the subscript cannot trap. *)
Definition update (crc : Z) (byte : byte) : Z :=
  let index := Z.land (Z.lxor crc (UInt8_toZ byte)) 0xFF in
  Z.lxor (table !!! Z.to_nat index) (Z.shiftr crc 8).

Definition compute (data : Data) : Z :=
  let crc := foldl update 0xFFFFFFFF data in
  Z.lxor crc 0xFFFFFFFF.

End CRC32.

(** ** BLEProtocol.swift: chunks and reassembly *)

Module BLEProtocol.

Definition maxChunkData : Z := 493.

Record Chunk : Type := mkChunk {
  index : Z;     (* UInt16 *)
  total : Z;     (* UInt16 *)
  crc32 : Z;     (* UInt32 *)
  data : Data
}.

Definition toBytes (c : Chunk) : Data :=
  littleEndian16 (index c) ++ littleEndian16 (total c)
    ++ littleEndian32 (crc32 c) ++ data c.

Definition fromBytes (bytes : Data) : Result Chunk string :=
  if decide (Z.of_nat (length bytes) < 8) then failure "Chunk too small"
  else
    let index := loadLittleEndian (subdata bytes 0 2) in
    let total := loadLittleEndian (subdata bytes 2 4) in
    let crc32Stored := loadLittleEndian (subdata bytes 4 8) in
    let data := subdata bytes 8 (Z.of_nat (length bytes)) in
    let computed := CRC32.compute data in
    if decide (computed = crc32Stored)
    then success (mkChunk index total crc32Stored data)
    else failure ("CRC32 mismatch on chunk " +:+ pretty index).

(** The closure mapped over [0..<chunkCount]; [UInt16(i)] may trap. *)
Definition makeChunk (data : Data) (total : Z) (i : Z) : option Chunk :=
  let start := i * maxChunkData in
  let end_ := Z.min (start + maxChunkData) (Z.of_nat (length data)) in
  let chunkData := subdata data start end_ in
  let crc := CRC32.compute chunkData in
  index ← UInt16_init i;
  Some (mkChunk index total crc chunkData).

Definition chunkCount (data : Data) : Z :=
  Z.max 1 ((Z.of_nat (length data) + maxChunkData - 1) / maxChunkData).

Definition chunkData (data : Data) : option (list Chunk) :=
  let chunkCount := chunkCount data in
  total ← UInt16_init chunkCount;
  mapM (makeChunk data total) (seqZ 0 chunkCount).

Record ChunkReassembler : Type := mkReassembler {
  r_total : Z;
  r_chunks : list (option Data);
  receivedCount : Z
}.

(** [Array(repeating: nil, count: total)] traps on a negative count. *)
Definition init (total : Z) : option ChunkReassembler :=
  if decide (0 ≤ total)
  then Some (mkReassembler total (replicate (Z.to_nat total) None) 0)
  else None.

(** [addChunk]: the new state of the reassembler and the returned
    [Result<Bool, String>]; [None] where Swift traps ([UInt16(total)], or
    the subscript [chunks[idx]]). *)
Definition addChunk (r : ChunkReassembler) (chunk : Chunk)
  : option (ChunkReassembler * Result bool string) :=
  total16 ← UInt16_init (r_total r);
  if decide (total chunk ≠ total16) then Some (r, failure "Total mismatch")
  else if decide (¬ index chunk < r_total r)
  then Some (r, failure "Index out of range")
  else
    let idx := Z.to_nat (index chunk) in
    slot ← r_chunks r !! idx;
    let received :=
      if slot is None then receivedCount r + 1 else receivedCount r in
    Some (mkReassembler (r_total r)
                        (<[idx := Some (data chunk)]> (r_chunks r))
                        received,
          success (bool_decide (received = r_total r))).

Definition progress (r : ChunkReassembler) : Z * Z :=
  (receivedCount r, r_total r).

(** The loop of [reassemble] over [chunks.enumerated()], from position [i]
    with the buffer [result] built so far. *)
Fixpoint reassemble_loop (i : Z) (chunks : list (option Data))
    (result : Data) : Result Data string :=
  match chunks with
  | [] => success result
  | None :: _ => failure ("Missing chunk " +:+ pretty i)
  | Some data :: rest => reassemble_loop (i + 1) rest (result ++ data)
  end.

Definition reassemble (r : ChunkReassembler) : Result Data string :=
  if decide (receivedCount r ≠ r_total r)
  then failure ("Incomplete: " +:+ pretty (receivedCount r) +:+ "/"
                  +:+ pretty (r_total r))
  else reassemble_loop 0 (r_chunks r) [].

End BLEProtocol.

(** ** Thrown errors *)

(** [AuthService.AuthError]. *)
Inductive AuthError : Type :=
  | invalidCredentials
  | invalidEncryptionSalt
  | biometricsFailed
  | noStoredKey.

(** What a [throws] function can throw: an [AuthError], an error of one of
    the libraries (CryptoKit, Argon2Swift, Foundation), or a database error
    of GRDB. *)
Inductive ThrownError : Type :=
  | authError (e : AuthError)
  | libraryError (description : string)
  | databaseError (description : string).

Definition errorDescription (e : AuthError) : string :=
  match e with
  | invalidCredentials => "Invalid username or password"
  | invalidEncryptionSalt => "Corrupted encryption data"
  | biometricsFailed => "Biometric authentication failed"
  | noStoredKey => "No stored key â€” please log in with password"
  end.

Definition localizedDescription (e : ThrownError) : string :=
  match e with
  | authError e => errorDescription e
  | libraryError d => d
  | databaseError d => d
  end.

Definition Throws (A : Type) : Type := Result A ThrownError.

Definition try_bind {A B : Type} (r : Throws A) (k : A → Throws B) : Throws B :=
  match r with
  | success a => k a
  | failure e => failure e
  end.

Notation "'try!' x ← e ; k" := (try_bind e (fun x => k))
  (at level 10, x name, e at level 100, k at level 200,
   format "'[v' 'try!'  x  ←  e ; '/' k ']'").

(** [try? e]. *)
Definition try_opt {A : Type} (r : Throws A) : option A :=
  match r with
  | success a => Some a
  | failure _ => None
  end.

(** ** Platform interfaces *)

(** A Swift [String] is represented by the bytes of its UTF-8 encoding, so
    [s.data(using: .utf8)!] is the list of these bytes. *)
Definition utf8 (s : string) : Data := String.list_byte_of_string s.

Inductive Argon2Type : Type := Argon2_i | Argon2_d | Argon2_id.
Inductive Argon2Version : Type := V10 | V13.

(** The arguments of [Argon2Swift.hashPasswordBytes]. *)
Record Argon2Call : Type := mkArgon2Call {
  a_password : Data;
  a_salt : Data;
  a_length : Z;
  a_type : Argon2Type;
  a_version : Argon2Version;
  a_iterations : Z;
  a_memory : Z;
  a_parallelism : Z
}.

Class Argon2Swift : Type := {
  Argon2SwiftResult : Type;
  hashPasswordBytes : Argon2Call → Throws Argon2SwiftResult;
  encodedString : Argon2SwiftResult → string;
  hashData : Argon2SwiftResult → Data;
  (** [verifyHashString(password:hash:type:)] *)
  verifyHashString : string → string → Argon2Type → Throws bool
}.

(** [AES.GCM.SealedBox]. *)
Record SealedBox : Type := mkSealedBox {
  sb_nonce : Data;
  sb_ciphertext : Data;
  sb_tag : Data
}.

(** CryptoKit.  A [SymmetricKey] is the [Data] it was built from and an
    [AES.GCM.Nonce] the bytes it holds. *)
Class CryptoKit : Type := {
  (** [AES.GCM.Nonce(data:)] *)
  Nonce_init : Data → Throws Data;
  (** [AES.GCM.SealedBox(nonce:ciphertext:tag:)] *)
  SealedBox_init : Data → Data → Data → Throws SealedBox;
  (** [AES.GCM.seal(_:using:nonce:)] *)
  AES_GCM_seal : Data → Data → Data → Throws SealedBox;
  (** [AES.GCM.open(_:using:)] *)
  AES_GCM_open : SealedBox → Data → Throws Data;
  P256_PrivateKey : Type;
  P256_PublicKey : Type;
  publicKey : P256_PrivateKey → P256_PublicKey;
  compressedRepresentation : P256_PublicKey → Data;
  (** [P256.KeyAgreement.PublicKey(compactRepresentation:)] *)
  PublicKey_compactRepresentation : Data → Throws P256_PublicKey;
  (** [sharedSecretFromKeyAgreement(with:)] *)
  sharedSecretFromKeyAgreement : P256_PrivateKey → P256_PublicKey → Throws Data;
  (** [hkdfDerivedSymmetricKey(using: SHA256.self, salt:sharedInfo:outputByteCount:)] *)
  hkdfDerivedSymmetricKey : Data → Data → Data → Z → Data;
  (** [HMAC<SHA256>.authenticationCode(for:using:)] *)
  HMAC_SHA256 : Data → Data → Data
}.

(** The decoded payload of an entry, [VaultEntryData]. *)
Record VaultEntryData : Type := mkVaultEntryData {
  d_username : option string;
  d_password : option string;
  d_totpSecret : option string;
  d_notes : option string
}.

Definition VaultEntryData_init : VaultEntryData :=
  mkVaultEntryData None None None None.

Class Foundation : Type := {
  base64EncodedString : Data → string;
  (** [UInt8(_:radix:)] with radix 16 *)
  UInt8_radix16 : string → option byte;
  (** [JSONDecoder().decode(VaultEntryData.self, from:)] *)
  JSONDecoder_decode : Data → Throws VaultEntryData;
  (** [JSONEncoder().encode(_:)] *)
  JSONEncoder_encode : VaultEntryData → Throws Data
}.

(** ** CryptoService.swift *)

Module CryptoService.
Section WithPlatform.
Context `{Argon2Swift} `{CryptoKit}.

Definition memoryCost : Z := 19456.
Definition timeCost : Z := 2.
Definition parallelism : Z := 1.
Definition hashLength : Z := 32.

Definition hashPassword (password : string) (salt : Data) : Throws string :=
  try! result ← hashPasswordBytes
    (mkArgon2Call (utf8 password) salt hashLength Argon2_id V13
                  timeCost memoryCost parallelism);
  success (encodedString result).

Definition verifyPassword (password : string) (hash : string) : Throws bool :=
  verifyHashString password hash Argon2_id.

(** The result is the [SymmetricKey] built from [result.hashData()]. *)
Definition deriveEncryptionKey (password : string) (encryptionSalt : Data)
  : Throws Data :=
  try! result ← hashPasswordBytes
    (mkArgon2Call (utf8 password) encryptionSalt hashLength Argon2_id V13
                  timeCost memoryCost parallelism);
  success (hashData result).

(** [encrypt]; [freshNonce] is the value of [AES.GCM.Nonce()], twelve bytes
    drawn from the system generator. *)
Definition encrypt (freshNonce : Data) (plaintext : Data) (key : Data)
  : Throws (Data * Data) :=
  let nonce := freshNonce in
  try! sealed ← AES_GCM_seal plaintext key nonce;
  let ciphertextWithTag := sb_ciphertext sealed ++ sb_tag sealed in
  success (ciphertextWithTag, nonce).

Definition dropLast (n : nat) (d : Data) : Data := take (length d - n)%nat d.
Definition suffix (n : nat) (d : Data) : Data := drop (length d - n)%nat d.

Definition decrypt (ciphertext : Data) (nonce : Data) (key : Data)
  : Throws Data :=
  try! gcmNonce ← Nonce_init nonce;
  try! sealed ← SealedBox_init gcmNonce (dropLast 16 ciphertext)
                               (suffix 16 ciphertext);
  AES_GCM_open sealed key.

Definition deriveSessionKey (privateKey : P256_PrivateKey)
    (peerPublicKey : P256_PublicKey) : Throws Data :=
  try! sharedSecret ← sharedSecretFromKeyAgreement privateKey peerPublicKey;
  success (hkdfDerivedSymmetricKey sharedSecret []
             (utf8 "vibevault-sync-v1") 32).

Definition computePairingHMAC (code : string) (publicKeyBytes : Data) : Data :=
  let key := utf8 code in
  HMAC_SHA256 publicKeyBytes key.

End WithPlatform.
End CryptoService.

(** ** Models/User.swift, Models/VaultEntry.swift *)

Record User : Type := mkUser {
  username : string;
  passwordHash : string;
  salt : string;
  encryptionSalt : string
}.

Record VaultEntry : Type := mkVaultEntry {
  id : option Z;
  uuid : string;
  dataBlob : Data;
  nonce : Data;
  profileId : Z;
  entryUuid : option string;
  createdAt : string;
  updatedAt : string;
  deletedAt : option string;
  syncVersion : Z
}.

Record DisplayEntry : Type := mkDisplayEntry {
  entry : VaultEntry;
  entry_data : VaultEntryData
}.

(** ** GRDB records

    [User], [VaultEntry] and [Profile] are [Codable] records that declare
    no [CodingKeys] and no column strategy (the [Columns] enums of [User]
    and [VaultEntry] are not used by the coding): GRDB writes and reads
    each property under the name of the property.  The tables have the
    columns of their [CREATE TABLE] statements in [runMigrations]. *)

Definition User_codingKeys : list string :=
  ["username"; "passwordHash"; "salt"; "encryptionSalt"].

Definition users_columns : list string :=
  ["username"; "password_hash"; "salt"; "encryption_salt"].

Definition VaultEntry_codingKeys : list string :=
  ["id"; "uuid"; "dataBlob"; "nonce"; "profileId"; "entryUuid";
   "createdAt"; "updatedAt"; "deletedAt"; "syncVersion"].

(** The properties of [VaultEntry] that are not optional. *)
Definition VaultEntry_requiredKeys : list string :=
  ["uuid"; "dataBlob"; "nonce"; "profileId"; "createdAt"; "updatedAt";
   "syncVersion"].

Definition vault_entries_columns : list string :=
  ["id"; "uuid"; "data_blob"; "nonce"; "profile_id"; "entry_uuid";
   "created_at"; "updated_at"; "deleted_at"; "sync_version"].

(** The properties of [Profile] that are not optional. *)
Definition Profile_requiredKeys : list string := ["name"; "createdAt"].

Definition profiles_columns : list string := ["id"; "name"; "created_at"].

(** The first key that is no column of the table. *)
Definition missingColumn (keys columns : list string) : option string :=
  head (filter (fun key => key ∉ columns) keys).

(** [record.insert(db)]: the INSERT names one column per key, and SQLite
    refuses a statement that names a column the table lacks, before any
    row is touched.  (Of GRDB's description of the error only SQLite's
    message is kept.) *)
Definition insertStatement (table : string) (keys columns : list string)
  : Throws unit :=
  match missingColumn keys columns with
  | Some key =>
      failure (databaseError
                 ("table " +:+ table +:+ " has no column named " +:+ key))
  | None => success ()
  end.

(** [record.update(db)]: the UPDATE sets one column per key. *)
Definition updateStatement (keys columns : list string) : Throws unit :=
  match missingColumn keys columns with
  | Some key => failure (databaseError ("no such column: " +:+ key))
  | None => success ()
  end.

(** Decoding a fetched row into a record: every property that is not
    optional needs a column of its name ([DecodingError.keyNotFound]
    otherwise). *)
Definition decodeRecord (requiredKeys columns : list string) : Throws unit :=
  match missingColumn requiredKeys columns with
  | Some key => failure (libraryError ("keyNotFound: " +:+ key))
  | None => success ()
  end.

(** The values of a 64-bit integer. *)
Definition Int64 (v : Z) : Prop :=
  -9223372036854775808 ≤ v ≤ 9223372036854775807.

#[global] Instance Int64_dec (v : Z) : Decision (Int64 v).
Proof. unfold Int64. apply _. Defined.

(** ** DatabaseService.swift *)

Module DatabaseService.

(** The tables the operations below touch.  [users] has [username] as its
    primary key; [vault_entries] is the list of its rows, in rowid order. *)
Record Database : Type := mkDatabase {
  users : gmap string User;
  vault_entries : list VaultEntry
}.

Definition isRegistered (db : Database) : bool :=
  bool_decide (0 < Z.of_nat (size (users db))).

(** [User.filter(Column("username") == username).fetchOne(db)]: no row
    gives [nil]; a row is decoded into a [User]. *)
Definition getUser (db : Database) (username : string)
  : Throws (option User) :=
  match users db !! username with
  | None => success None
  | Some row =>
      try! _ ← decodeRecord User_codingKeys users_columns;
      success (Some row)
  end.

(** [user.insert(db)]: the statement has to name columns of the table;
    then the primary key rejects a second row with the same [username].
    A failed statement changes nothing. *)
Definition createUser (db : Database) (user : User)
  : Database * Throws unit :=
  match insertStatement "users" User_codingKeys users_columns with
  | failure e => (db, failure e)
  | success _ =>
      match users db !! username user with
      | Some _ =>
          (db,
           failure (databaseError "UNIQUE constraint failed: users.username"))
      | None =>
          (mkDatabase (<[username user := user]> (users db))
                      (vault_entries db),
           success ())
      end
  end.

(** The rows that the query of [getActiveEntries] selects. *)
Definition activeRows (db : Database) (profileId' : Z) : list VaultEntry :=
  filter (fun e => profileId e = profileId' ∧ deletedAt e = None)
         (vault_entries db).

(** [getActiveEntries]: [fetchAll] decodes every selected row into a
    [VaultEntry]. *)
Definition getActiveEntries (db : Database) (profileId' : Z)
  : Throws (list VaultEntry) :=
  match activeRows db profileId' with
  | [] => success []
  | rows =>
      try! _ ← decodeRecord VaultEntry_requiredKeys vault_entries_columns;
      success rows
  end.

(** [entry.update(db)]: the statement has to name columns of the table;
    then it rewrites every column of the row with the entry's primary key,
    and throws when there is no such row. *)
Definition updateEntry (db : Database) (entry : VaultEntry)
  : Database * Throws unit :=
  match updateStatement VaultEntry_codingKeys vault_entries_columns with
  | failure e => (db, failure e)
  | success _ =>
      if bool_decide (is_Some (id entry)
                      ∧ Exists (fun e => id e = id entry) (vault_entries db))
      then (mkDatabase (users db)
              ((fun e => if decide (id e = id entry) then entry else e)
                 <$> vault_entries db),
            success ())
      else (db,
            failure (databaseError "Key not found in table vault_entries"))
  end.

(** [sync_version + 1] in SQLite.  On a 64-bit integer it is the sum; for
    the largest one the sum is no 64-bit integer and SQLite stores it as
    the REAL 9223372036854775808.0.  A stored number outside the 64-bit
    range stands for such a REAL, and adding 1 to a REAL of that size
    rounds back to it. *)
Definition sqlite_increment (v : Z) : Z :=
  if decide (Int64 v) then v + 1 else v.

(** The [UPDATE ... WHERE id = ? AND profile_id = ? AND deleted_at IS NULL]
    of [softDeleteEntry], on one row; [now] is the formatted current
    date. *)
Definition softDeleteRow (now : string) (id' profileId' : Z)
    (e : VaultEntry) : VaultEntry :=
  if decide (id e = Some id' ∧ profileId e = profileId' ∧ deletedAt e = None)
  then mkVaultEntry (id e) (uuid e) (dataBlob e) (nonce e) (profileId e)
         (entryUuid e) (createdAt e) now (Some now)
         (sqlite_increment (syncVersion e))
  else e.

Definition softDeleteEntry (now : string) (db : Database)
    (id' profileId' : Z) : Database :=
  mkDatabase (users db) (softDeleteRow now id' profileId' <$> vault_entries db).

End DatabaseService.

(** ** AuthService.swift *)

Module AuthService.
Section WithPlatform.
Context `{Argon2Swift} `{CryptoKit} `{Foundation}.

Record AuthService : Type := mkAuthService {
  isRegistered : bool;
  isAuthenticated : bool;
  activeProfileId : Z;
  encryptionKey : option Data
}.

Definition checkRegistration (db : DatabaseService.Database)
    (self : AuthService) : AuthService :=
  mkAuthService (DatabaseService.isRegistered db) (isAuthenticated self)
                (activeProfileId self) (encryptionKey self).

(** [String(format: "%02hhx", byte)] *)
Definition hexDigit (n : Z) : string :=
  String.substring (Z.to_nat n) 1 "0123456789abcdef".

Definition hex2 (b : byte) : string :=
  hexDigit (UInt8_toZ b / 16) +:+ hexDigit (UInt8_toZ b mod 16).

(** [s.replacingOccurrences(of: "=", with: "")] *)
Fixpoint removePadding (s : string) : string :=
  match s with
  | EmptyString => EmptyString
  | String c s' =>
      if Ascii.eqb c "="%char then removePadding s'
      else String c (removePadding s')
  end.

(** [register]; [saltBytes] (16 bytes) and [encSaltBytes] (32 bytes) are the
    buffers filled by [SecRandomCopyBytes]. *)
Definition register (saltBytes encSaltBytes : Data)
    (db : DatabaseService.Database) (self : AuthService)
    (username password : string)
  : DatabaseService.Database * AuthService * Throws unit :=
  let salt := saltBytes in
  match CryptoService.hashPassword password salt with
  | failure e => (db, self, failure e)
  | success passwordHash =>
      let encSalt := encSaltBytes in
      let user :=
        mkUser username passwordHash
               (removePadding (base64EncodedString salt))
               (foldr (fun b acc => hex2 b +:+ acc) EmptyString encSalt) in
      match DatabaseService.createUser db user with
      | (db', failure e) => (db', self, failure e)
      | (db', success _) =>
          (db',
           mkAuthService true (isAuthenticated self) (activeProfileId self)
                         (encryptionKey self),
           success ())
      end
  end.

(** The loop of [Data(hexString:)]: [n] pairs of characters left. *)
Fixpoint hexString_loop (n : nat) (hexString : string) (data : Data)
  : option Data :=
  match n with
  | O => Some data
  | S n' =>
      byte ← UInt8_radix16 (String.substring 0 2 hexString);
      hexString_loop n'
        (String.substring 2 (String.length hexString - 2) hexString)
        (data ++ [byte])
  end.

Definition Data_hexString (hexString : string) : option Data :=
  let len := (String.length hexString / 2)%nat in
  hexString_loop len hexString [].

(** [login].  The best-effort Keychain write ([try?]) after the key is
    derived leaves the state modelled here as it is. *)
Definition login (db : DatabaseService.Database) (self : AuthService)
    (username password : string) : AuthService * Throws unit :=
  match DatabaseService.getUser db username with
  | failure e => (self, failure e)
  | success None => (self, failure (authError invalidCredentials))
  | success (Some user) =>
      match CryptoService.verifyPassword password (passwordHash user) with
      | failure e => (self, failure e)
      | success false => (self, failure (authError invalidCredentials))
      | success true =>
          match Data_hexString (encryptionSalt user) with
          | None => (self, failure (authError invalidEncryptionSalt))
          | Some encSaltData =>
              match CryptoService.deriveEncryptionKey password encSaltData with
              | failure e => (self, failure e)
              | success key =>
                  (mkAuthService (isRegistered self) true
                                 (activeProfileId self) (Some key),
                   success ())
              end
          end
      end
  end.

Definition logout (self : AuthService) : AuthService :=
  mkAuthService (isRegistered self) false 1 None.

Definition getEncryptionKey (self : AuthService) : option Data :=
  encryptionKey self.

End WithPlatform.
End AuthService.

(** ** SyncOrchestrator (with the part of BLECentralManager it drives) *)

Module SyncOrchestrator.
Section WithPlatform.
Context `{CryptoKit}.

Inductive SyncState : Type :=
  | idle
  | scanning
  | pairing
  | paired
  | transferring
  | complete
  | error (message : string).

(** [BLECentralManager]: the peer key stored by [didUpdateValueFor] for the
    Pairing characteristic, whether that characteristic was discovered and
    a peripheral is connected, and the values written to it so far. *)
Record BLECentralManager : Type := mkBLECentralManager {
  peerPublicKey : option Data;
  pairingCharacteristic : bool;
  connectedPeripheral : bool;
  pairingWrites : list Data
}.

Definition writePairingData (ble : BLECentralManager) (data : Data)
  : BLECentralManager :=
  if pairingCharacteristic ble && connectedPeripheral ble
  then mkBLECentralManager (peerPublicKey ble) (pairingCharacteristic ble)
         (connectedPeripheral ble) (pairingWrites ble ++ [data])
  else ble.

Record SyncOrchestrator : Type := mkSyncOrchestrator {
  state : SyncState;
  sessionKey : option Data;
  bleManager : BLECentralManager
}.

(** [submitPairingCode]; [freshKey] is the key pair that
    [CryptoService.generateECDHKeyPair()] returns. *)
Definition submitPairingCode (freshKey : P256_PrivateKey)
    (self : SyncOrchestrator) (code : string) : SyncOrchestrator :=
  match peerPublicKey (bleManager self) with
  | None =>
      mkSyncOrchestrator (error "No peer public key received")
                         (sessionKey self) (bleManager self)
  | Some peerPublicKeyData =>
      match PublicKey_compactRepresentation peerPublicKeyData with
      | failure e =>
          mkSyncOrchestrator
            (error ("Pairing failed: " +:+ localizedDescription e))
            (sessionKey self) (bleManager self)
      | success peerPublicKey =>
          let privateKey := freshKey in
          let publicKeyData := compressedRepresentation (publicKey privateKey) in
          let hmac := CryptoService.computePairingHMAC code publicKeyData in
          let pairingPayload := publicKeyData ++ hmac in
          let ble := writePairingData (bleManager self) pairingPayload in
          match CryptoService.deriveSessionKey privateKey peerPublicKey with
          | failure e =>
              mkSyncOrchestrator
                (error ("Pairing failed: " +:+ localizedDescription e))
                (sessionKey self) ble
          | success key => mkSyncOrchestrator paired (Some key) ble
          end
      end
  end.

End WithPlatform.
End SyncOrchestrator.

(** ** VaultListView.swift *)

Module VaultListView.
Section WithPlatform.
Context `{CryptoKit} `{Foundation}.

(** The closure given to [compactMap] in [loadEntries]. *)
Definition displayEntry (key : Data) (entry : VaultEntry)
  : option DisplayEntry :=
  if decide (nonce entry = [])
  then
    (* Legacy plaintext *)
    let data := default VaultEntryData_init
                        (try_opt (JSONDecoder_decode (dataBlob entry))) in
    Some (mkDisplayEntry entry data)
  else
    match try_opt (CryptoService.decrypt (dataBlob entry) (nonce entry) key) with
    | None => None
    | Some plaintext =>
        let data := default VaultEntryData_init
                            (try_opt (JSONDecoder_decode plaintext)) in
        Some (mkDisplayEntry entry data)
    end.

(** The state of the view that [loadEntries] writes, and what it prints to
    the console.  The view has no error state. *)
Record VaultListView : Type := mkVaultListView {
  entries : list DisplayEntry;
  console : list string
}.

(** [loadEntries]; [rawEntries] is the outcome of
    [DatabaseService.shared.getActiveEntries(profileId:)]. *)
Definition loadEntries (self : VaultListView) (key : option Data)
    (rawEntries : Throws (list VaultEntry)) : VaultListView :=
  match key with
  | None => self
  | Some key =>
      match rawEntries with
      | success rawEntries =>
          mkVaultListView (omap (displayEntry key) rawEntries) (console self)
      | failure e =>
          mkVaultListView (entries self)
            (console self
               ++ ["Failed to load entries: " +:+ localizedDescription e])
      end
  end.

End WithPlatform.
End VaultListView.

(** ** EntryDetailView (in LoginView.swift) *)

Module EntryDetailView.
Section WithPlatform.
Context `{CryptoKit} `{Foundation}.

(** [v += 1] on an [Int64] traps on overflow. *)
Definition Int64_increment (v : Z) : option Z :=
  if decide (v + 1 ≤ 9223372036854775807) then Some (v + 1) else None.

(** [updateEntry] for the edited fields; [entry] is the row the view was
    opened with, [freshNonce] and [now] as before.  [None] is the overflow
    trap; the second component is the error shown by the view, if any. *)
Definition updateEntry (freshNonce : Data) (now : string)
    (db : DatabaseService.Database) (key : option Data) (entry : VaultEntry)
    (siteName : string) (entryData : VaultEntryData)
  : option (DatabaseService.Database * option string) :=
  match key, id entry with
  | Some key, Some entryId =>
      match JSONEncoder_encode entryData with
      | failure e => Some (db, Some (localizedDescription e))
      | success jsonData =>
          match CryptoService.encrypt freshNonce jsonData key with
          | failure e => Some (db, Some (localizedDescription e))
          | success (ciphertext, nonce') =>
              syncVersion' ← Int64_increment (syncVersion entry);
              let updated :=
                mkVaultEntry (id entry) siteName ciphertext nonce'
                  (profileId entry) (entryUuid entry) (createdAt entry)
                  now (deletedAt entry) syncVersion' in
              match DatabaseService.updateEntry db updated with
              | (db', success _) => Some (db', None)
              | (db', failure e) => Some (db', Some (localizedDescription e))
              end
          end
      end
  | _, _ => Some (db, Some "Session expired")
  end.

Definition deleteEntry (now : string) (db : DatabaseService.Database)
    (entry : VaultEntry) : DatabaseService.Database :=
  match id entry with
  | None => db
  | Some entryId =>
      DatabaseService.softDeleteEntry now db entryId (profileId entry)
  end.

End WithPlatform.
End EntryDetailView.

(** ** Runs and corruptions used in the statements *)

(** A receiver that feeds the chunks of a message to a reassembler one by
    one and stops at the first chunk [addChunk] rejects. *)
Fixpoint addChunks (r : BLEProtocol.ChunkReassembler)
    (cs : list BLEProtocol.Chunk)
  : option (Result BLEProtocol.ChunkReassembler string) :=
  match cs with
  | [] => Some (success r)
  | c :: cs' =>
      '(r', res) ← BLEProtocol.addChunk r c;
      match res with
      | failure msg => Some (failure msg)
      | success _ => addChunks r' cs'
      end
  end.


(** [b'] is [b] with bit [j] flipped. *)
Definition bit_flipped (b b' : byte) : Prop :=
  ∃ j, 0 ≤ j < 8 ∧ UInt8_toZ b' = Z.lxor (UInt8_toZ b) (Z.shiftl 1 j).

(** Two buffers that differ in exactly one bit. *)
Inductive one_bit_flip : Data → Data → Prop :=
  | flip_at (pre suf : Data) (b b' : byte) :
      bit_flipped b b' → one_bit_flip (pre ++ b :: suf) (pre ++ b' :: suf).

(** Two sealed boxes that differ in exactly one bit of the nonce, of the
    ciphertext or of the tag. *)
Inductive SealedBox_one_bit_flip (sb : SealedBox) : SealedBox → Prop :=
  | flip_nonce n' :
      one_bit_flip (sb_nonce sb) n' →
      SealedBox_one_bit_flip sb (mkSealedBox n' (sb_ciphertext sb) (sb_tag sb))
  | flip_ciphertext c' :
      one_bit_flip (sb_ciphertext sb) c' →
      SealedBox_one_bit_flip sb (mkSealedBox (sb_nonce sb) c' (sb_tag sb))
  | flip_tag t' :
      one_bit_flip (sb_tag sb) t' →
      SealedBox_one_bit_flip sb (mkSealedBox (sb_nonce sb) (sb_ciphertext sb) t').

(** A sequence of [login] attempts on one [AuthService]: the final state
    and the result of every attempt. *)
Fixpoint loginAttempts `{Argon2Swift} `{Foundation}
    (db : DatabaseService.Database) (self : AuthService.AuthService)
    (attempts : list (string * string))
  : AuthService.AuthService * list (Throws unit) :=
  match attempts with
  | [] => (self, [])
  | (username, password) :: rest =>
      let '(self', r) := AuthService.login db self username password in
      let '(self'', rs) := loginAttempts db self' rest in
      (self'', r :: rs)
  end.

Definition failed {A : Type} (r : Throws A) : Prop := ∃ e, r = failure e.

(** The Argon2id call the specification prescribes for a password and a
    salt: m = 19456 KiB, t = 2, p = 1, 32 bytes of output. *)
Definition spec_Argon2id (password : string) (salt : Data) : Argon2Call :=
  {| a_password := utf8 password; a_salt := salt; a_length := 32;
     a_type := Argon2_id; a_version := V13;
     a_iterations := 2; a_memory := 19456; a_parallelism := 1 |}.

(** ** The contract of CryptoKit the statements rely on *)

(** AES-GCM: a 12-byte nonce and a 16-byte tag are accepted, a 256-bit key
    seals, a sealed box opens to its plaintext, and a box that differs in
    one bit from a sealed one is not authentic. *)
Class AESGCMContract `{CryptoKit} : Prop := {
  Nonce_init_12 : ∀ d, length d = 12%nat → Nonce_init d = success d;
  SealedBox_init_16 : ∀ n c t,
    length t = 16%nat → SealedBox_init n c t = success (mkSealedBox n c t);
  seal_key256 : ∀ plaintext key n,
    length key = 32%nat → length n = 12%nat →
    ∃ sb, AES_GCM_seal plaintext key n = success sb;
  seal_shape : ∀ plaintext key n sb,
    AES_GCM_seal plaintext key n = success sb →
    sb_nonce sb = n ∧ length (sb_tag sb) = 16%nat;
  open_seal : ∀ plaintext key n sb,
    AES_GCM_seal plaintext key n = success sb →
    AES_GCM_open sb key = success plaintext;
  open_one_bit_flip : ∀ plaintext key n sb sb',
    AES_GCM_seal plaintext key n = success sb →
    SealedBox_one_bit_flip sb sb' →
    failed (AES_GCM_open sb' key)
}.

(** P-256 keys and HMAC-SHA256: the compressed form of a point has 33
    bytes, the compact form parsed by [PublicKey(compactRepresentation:)]
    has 32, and an authentication code has 32. *)
Class P256Contract `{CryptoKit} : Prop := {
  compressedRepresentation_length : ∀ pk,
    length (compressedRepresentation pk) = 33%nat;
  compactRepresentation_length : ∀ d pk,
    PublicKey_compactRepresentation d = success pk → length d = 32%nat;
  HMAC_SHA256_length : ∀ message key,
    length (HMAC_SHA256 message key) = 32%nat
}.

(** ** An executable instance of the platform interfaces

    Small stand-ins for the three libraries, on which the code can be run on
    concrete inputs.  They have the interface and the size checks of the
    libraries and none of their cryptographic strength: the "hash" of a
    password records the password, and the tag of a sealed box is a
    checksum of key, nonce and ciphertext. *)

Module Toy.

Definition argon2 : Argon2Swift := {|
  Argon2SwiftResult := Argon2Call;
  hashPasswordBytes := fun call => success call;
  encodedString := fun call =>
    "$toy$" +:+ String.string_of_list_byte (a_password call);
  hashData := fun call =>
    take (Z.to_nat (a_length call))
         (a_password call ++ a_salt call
            ++ replicate (Z.to_nat (a_length call)) x00);
  verifyHashString := fun password hash _ =>
    success (bool_decide (hash = "$toy$" +:+ password))
|}.

Definition byteSum (d : Data) : Z :=
  foldr (fun b acc => UInt8_toZ b + acc) 0 d.

Definition tag (key n c : Data) : Data :=
  replicate 16 (UInt8_ofZ (byteSum key + byteSum n + byteSum c)).

Definition cryptoKit : CryptoKit := {|
  Nonce_init := fun d =>
    if decide (12 ≤ length d)%nat then success d
    else failure (libraryError "incorrectParameterSize");
  SealedBox_init := fun n c t =>
    if decide (length t = 16%nat) then success (mkSealedBox n c t)
    else failure (libraryError "incorrectParameterSize");
  AES_GCM_seal := fun plaintext key n =>
    if decide (length key = 32%nat)
    then success (mkSealedBox n plaintext (tag key n plaintext))
    else failure (libraryError "incorrectKeySize");
  AES_GCM_open := fun sb key =>
    if decide (sb_tag sb = tag key (sb_nonce sb) (sb_ciphertext sb))
    then success (sb_ciphertext sb)
    else failure (libraryError "authenticationFailure");
  P256_PrivateKey := Data;
  P256_PublicKey := Data;
  publicKey := fun sk : Data => sk;
  compressedRepresentation := fun pk : Data =>
    x02 :: take 32 (pk ++ replicate 32 x00);
  PublicKey_compactRepresentation := fun d : Data =>
    if decide (length d = 32%nat) then success d
    else failure (libraryError "incorrectParameterSize");
  sharedSecretFromKeyAgreement := fun sk pk : Data => success (sk ++ pk);
  hkdfDerivedSymmetricKey := fun (secret salt info : Data) (n : Z) =>
    take (Z.to_nat n) (secret ++ info ++ replicate (Z.to_nat n) x00);
  HMAC_SHA256 := fun message key : Data =>
    take 32 (key ++ message ++ replicate 32 x00)
|}.

Definition hexValue (c : ascii) : option Z :=
  let n := Z.of_nat (nat_of_ascii c) in
  if decide (48 ≤ n ≤ 57) then Some (n - 48)
  else if decide (97 ≤ n ≤ 102) then Some (n - 87)
  else if decide (65 ≤ n ≤ 70) then Some (n - 55)
  else None.

Definition foundation : Foundation := {|
  base64EncodedString := fun d => String.string_of_list_byte d;
  UInt8_radix16 := fun s =>
    match s with
    | String hi (String lo EmptyString) =>
        h ← hexValue hi; l ← hexValue lo; Some (UInt8_ofZ (16 * h + l))
    | _ => None
    end;
  JSONDecoder_decode := fun d =>
    if decide (d = []) then failure (libraryError "dataCorrupted")
    else success (mkVaultEntryData (Some (String.string_of_list_byte d))
                                   None None None);
  JSONEncoder_encode := fun v => success (utf8 (default EmptyString (d_username v)))
|}.

End Toy.

(** ** Sample inputs *)

(** A registered user for the concrete runs. *)
Definition alice : User :=
  mkUser "alice" "$toy$correct horse battery staple" "c2FsdA" "00ff10".


Definition lockedService : AuthService.AuthService :=
  AuthService.mkAuthService true false 1 None.

(** An orchestrator in the pairing state that has read a 33-byte compressed
    public key from the Pairing characteristic. *)
Definition compressedPeerKey : Data := x02 :: replicate 32 x11.

Definition pairingOrchestrator : SyncOrchestrator.SyncOrchestrator :=
  SyncOrchestrator.mkSyncOrchestrator SyncOrchestrator.pairing None
    (SyncOrchestrator.mkBLECentralManager (Some compressedPeerKey)
       true true []).

(** A stored, active vault entry of profile 1. *)
Definition githubEntry : VaultEntry :=
  mkVaultEntry (Some 1) "github.com" (replicate 20 x2a) (replicate 12 x02) 1
    (Some "6F9619FF-8B86-D011-B42D-00C04FC964FF")
    "2026-01-01T00:00:00Z" "2026-01-01T00:00:00Z" None 3.

Definition vaultDatabase : DatabaseService.Database :=
  DatabaseService.mkDatabase {[ "alice" := alice ]} [githubEntry].


Definition emptyView : VaultListView.VaultListView :=
  VaultListView.mkVaultListView [] [].

(** ** Auxiliary definitions for the proofs *)

(** Payload number [i] of a message, and the chunk [chunkData] builds for
    it. *)
Definition payloadAt (data : Data) (i : Z) : Data :=
  take 493 (drop (Z.to_nat i * 493) data).

Definition chunkAt (data : Data) (i : Z) : BLEProtocol.Chunk :=
  BLEProtocol.mkChunk i (BLEProtocol.chunkCount data)
    (CRC32.compute (payloadAt data i)) (payloadAt data i).

(** The reassembler of a message of [n] chunks after the payloads with the
    indices [received] (in any order, each once) arrived. *)
Definition reassemblerWith (data : Data) (n : Z) (received : list Z)
  : BLEProtocol.ChunkReassembler :=
  BLEProtocol.mkReassembler n
    ((fun i => if decide (i ∈ received) then Some (payloadAt data i) else None)
       <$> seqZ 0 n)
    (Z.of_nat (length received)).

(** * Further code of the client *)

(** ** BLEProtocol.swift: the states a reassembler can be in *)

(** The reassemblers a receiver can hold for a message of [n] chunks: the
    one [init] builds, and every state [addChunk] returns, be it after an
    accepted or after a rejected chunk. *)
Inductive reachable (n : Z) : BLEProtocol.ChunkReassembler → Prop :=
  | reachable_init r :
      BLEProtocol.init n = Some r → reachable n r
  | reachable_addChunk r chunk r' res :
      reachable n r →
      BLEProtocol.addChunk r chunk = Some (r', res) →
      reachable n r'.

(** The payloads in the slots of a reassembler, in index order, when every
    slot is filled. *)
Definition filledSlots (r : BLEProtocol.ChunkReassembler) : option (list Data) :=
  mapM (fun slot => slot) (BLEProtocol.r_chunks r).

(** ** CryptoService.swift: pairing codes *)

Module CryptoServiceUtility.

Definition digitChar (d : Z) : ascii := ascii_of_nat (48 + Z.to_nat d).

(** The decimal digits of a non-negative number, most significant first, in
    front of [acc]; [fuel] bounds the number of digits. *)
Fixpoint decimal_go (fuel : nat) (n : Z) (acc : string) : string :=
  match fuel with
  | O => acc
  | S fuel' =>
      let acc' := String (digitChar (n mod 10)) acc in
      if decide (n / 10 = 0) then acc' else decimal_go fuel' (n / 10) acc'
  end.

Definition decimal (n : Z) : string := decimal_go 20 n EmptyString.

Fixpoint zeros (k : nat) : string :=
  match k with
  | O => EmptyString
  | S k' => String "0"%char (zeros k')
  end.

(** [String(format: "%06d", n)] for a non-negative [n]: the decimal digits,
    padded with zeros on the left to six characters. *)
Definition format_06d (n : Z) : string :=
  zeros (6 - String.length (decimal n)) +:+ decimal n.

(** [generatePairingCode]; [b0 .. b3] are the four bytes that
    [SecRandomCopyBytes] wrote. *)
Definition generatePairingCode (b0 b1 b2 b3 : byte) : string :=
  let num :=
    Z.lor (Z.lor (Z.lor (UInt8_toZ b0) (Z.shiftl (UInt8_toZ b1) 8))
                 (Z.shiftl (UInt8_toZ b2) 16))
          (Z.shiftl (UInt8_toZ b3) 24) in
  format_06d (num mod 1000000).

End CryptoServiceUtility.

(** The number a string of decimal digits denotes. *)
Fixpoint decimalValue (acc : Z) (s : string) : Z :=
  match s with
  | EmptyString => acc
  | String c s' => decimalValue (10 * acc + (Z.of_nat (nat_of_ascii c) - 48)) s'
  end.

Definition isDigit (c : ascii) : Prop :=
  48 ≤ Z.of_nat (nat_of_ascii c) ≤ 57.

Fixpoint allDigits (s : string) : Prop :=
  match s with
  | EmptyString => True
  | String c s' => isDigit c ∧ allDigits s'
  end.

(** ** KeychainService.swift *)

Module KeychainService.

Inductive KeychainKey : Type := encryptionKey | sessionActive.

Definition rawValue (key : KeychainKey) : string :=
  match key with
  | encryptionKey => "vault_encryption_key"
  | sessionActive => "session_active"
  end.

Inductive KeychainError : Type :=
  | storeFailure (status : Z)
  | retrieveFailure (status : Z).

(** A generic-password item of the service "com.vibevault.ios": its data
    and whether reading it needs the current biometry. *)
Record Item : Type := mkItem {
  item_data : Data;
  item_biometric : bool
}.

(** The items of the service, by account name. *)
Abbreviation Keychain := (gmap string Item).

(** [store].  [SecItemDelete] removes the item of the account first;
    [osFailure] is the status of [SecItemAdd] when the system refuses the
    new item, and [accessControl] tells whether
    [SecAccessControlCreateWithFlags] returned an object. *)
Definition store (osFailure : option Z) (accessControl : bool)
    (kc : Keychain) (key : KeychainKey) (data : Data) (requireBiometric : bool)
  : Keychain * Result unit KeychainError :=
  let kc' := delete (rawValue key) kc in
  match osFailure with
  | Some status => (kc', failure (storeFailure status))
  | None =>
      (<[rawValue key := mkItem data (requireBiometric && accessControl)]> kc',
       success ())
  end.

(** [retrieve]; [osFailure] is the status of [SecItemCopyMatching] when it
    is neither [errSecSuccess] nor [errSecItemNotFound]. *)
Definition retrieve (osFailure : option Z) (kc : Keychain) (key : KeychainKey)
  : Result (option Data) KeychainError :=
  match osFailure with
  | Some status => failure (retrieveFailure status)
  | None => success (item_data <$> kc !! rawValue key)
  end.

Definition delete (kc : Keychain) (key : KeychainKey) : Keychain :=
  base.delete (rawValue key) kc.

End KeychainService.

(** ** AuthService.swift: the Keychain side of login, logout and Face ID *)

Module AuthServiceKeychain.
Section WithPlatform.
Context `{Argon2Swift} `{Foundation}.

(** What [unlockWithBiometrics] can throw. *)
Inductive UnlockError : Type :=
  | unlockAuthError (e : AuthError)
  | unlockKeychainError (e : KeychainService.KeychainError)
  | unlockBiometryError (description : string).

(** [login] with its Keychain write: after the key is derived and set, it
    is stored under [encryptionKey] with [requireBiometric: true]; the
    [try?] drops a failure of the store. *)
Definition login (osFailure : option Z) (accessControl : bool)
    (db : DatabaseService.Database) (self : AuthService.AuthService)
    (kc : KeychainService.Keychain) (username password : string)
  : AuthService.AuthService * KeychainService.Keychain * Throws unit :=
  match AuthService.login db self username password with
  | (self', success _) =>
      match AuthService.encryptionKey self' with
      | Some keyData =>
          (self',
           (KeychainService.store osFailure accessControl kc
              KeychainService.encryptionKey keyData true).1,
           success ())
      | None => (self', kc, success ())
      end
  | (self', failure e) => (self', kc, failure e)
  end.

(** [logout] with its Keychain delete. *)
Definition logout (self : AuthService.AuthService)
    (kc : KeychainService.Keychain)
  : AuthService.AuthService * KeychainService.Keychain :=
  (AuthService.logout self,
   KeychainService.delete kc KeychainService.encryptionKey).

(** [unlockWithBiometrics]; [biometrics] is the outcome of
    [KeychainService.authenticateWithBiometrics] (the answer of the system's
    biometric prompt) and [osFailure] as for [retrieve]. *)
Definition unlockWithBiometrics (biometrics : Result bool string)
    (osFailure : option Z) (self : AuthService.AuthService)
    (kc : KeychainService.Keychain)
  : AuthService.AuthService * Result unit UnlockError :=
  match biometrics with
  | failure description => (self, failure (unlockBiometryError description))
  | success false => (self, failure (unlockAuthError biometricsFailed))
  | success true =>
      match KeychainService.retrieve osFailure kc
              KeychainService.encryptionKey with
      | failure e => (self, failure (unlockKeychainError e))
      | success None => (self, failure (unlockAuthError noStoredKey))
      | success (Some keyData) =>
          (AuthService.mkAuthService (AuthService.isRegistered self) true
             (AuthService.activeProfileId self) (Some keyData),
           success ())
      end
  end.

End WithPlatform.
End AuthServiceKeychain.

(** ** Models/Profile.swift and the rest of DatabaseService.swift *)

Record Profile : Type := mkProfile {
  p_id : option Z;
  p_name : string;
  p_createdAt : string
}.

Module DatabaseStore.

(** The database with its [profiles] table, which [vault_entries.profile_id]
    references; GRDB opens its connections with foreign keys enforced. *)
Record Store : Type := mkStore {
  database : DatabaseService.Database;
  profiles : list Profile
}.

(** The part of [runMigrations] that changes an existing database: the
    tables are created only if they are missing, and the profile
    "Personal" is inserted when the profiles table has no row; [now] is
    [CURRENT_TIMESTAMP]. *)
Definition runMigrations (now : string) (store : Store) : Store :=
  let profileCount := Z.of_nat (length (profiles store)) in
  if decide (profileCount = 0)
  then mkStore (database store) [mkProfile (Some 1) "Personal" now]
  else store.

(** [setup] on a device without a database file. *)
Definition setup (now : string) : Store :=
  runMigrations now (mkStore (DatabaseService.mkDatabase ∅ []) []).

(** [getAllProfiles]: [fetchAll] decodes every row into a [Profile]. *)
Definition getAllProfiles (store : Store) : Throws (list Profile) :=
  match profiles store with
  | [] => success []
  | rows =>
      try! _ ← decodeRecord Profile_requiredKeys profiles_columns;
      success rows
  end.

Definition getProfileEntryCount (store : Store) (profileId' : Z) : Z :=
  Z.of_nat
    (length (filter (fun e => profileId e = profileId' ∧ deletedAt e = None)
                    (DatabaseService.vault_entries (database store)))).

(** The rowid SQLite gives a row inserted without one: one more than the
    largest rowid of the table, 1 for an empty table (this is what it does
    while the largest rowid is below the largest 64-bit integer). *)
Definition nextRowid (rows : list VaultEntry) : Z :=
  match omap id rows with
  | [] => 1
  | i :: ids => foldr Z.max i ids + 1
  end.

Definition rowBefore (i : Z) (row : VaultEntry) : bool :=
  match id row with
  | Some j => bool_decide (j < i)
  | None => false
  end.

(** A row with rowid [i] put at its place in rowid order. *)
Fixpoint insertRow (i : Z) (row : VaultEntry) (rows : list VaultEntry)
  : list VaultEntry :=
  match rows with
  | [] => [row]
  | r :: rest =>
      if rowBefore i r then r :: insertRow i row rest else row :: r :: rest
  end.

(** [saveEntry]: [entry.insert(db)].  The statement has to name columns of
    the table; then the foreign key needs a profile with the entry's
    [profile_id], an entry without id gets the next rowid, and one with an
    id is refused when the id is taken. *)
Definition saveEntry (store : Store) (entry : VaultEntry)
  : Store * Throws unit :=
  let rows := DatabaseService.vault_entries (database store) in
  match insertStatement "vault_entries" VaultEntry_codingKeys
          vault_entries_columns with
  | failure e => (store, failure e)
  | success _ =>
      if bool_decide (Exists (fun p => p_id p = Some (profileId entry))
                             (profiles store))
      then
        match id entry with
        | None =>
            let row :=
              mkVaultEntry (Some (nextRowid rows)) (uuid entry)
                (dataBlob entry) (nonce entry) (profileId entry)
                (entryUuid entry) (createdAt entry) (updatedAt entry)
                (deletedAt entry) (syncVersion entry) in
            (mkStore
               (DatabaseService.mkDatabase
                  (DatabaseService.users (database store)) (rows ++ [row]))
               (profiles store),
             success ())
        | Some i =>
            if bool_decide (Exists (fun e => id e = Some i) rows)
            then (store,
                  failure (databaseError
                             "UNIQUE constraint failed: vault_entries.id"))
            else
              (mkStore
                 (DatabaseService.mkDatabase
                    (DatabaseService.users (database store))
                    (insertRow i entry rows))
                 (profiles store),
               success ())
        end
      else (store, failure (databaseError "FOREIGN KEY constraint failed"))
  end.

End DatabaseStore.

(** The rows of [vault_entries] as SQLite keeps them: every row has a rowid
    and the rowids increase along the table. *)
Definition rowidsIncrease (rows : list VaultEntry) : Prop :=
  ∃ ids : list Z, id <$> rows = Some <$> ids ∧ StronglySorted Z.lt ids.

(** ** AddEntryView.swift *)

Module AddEntryView.
Section WithPlatform.
Context `{CryptoKit} `{Foundation}.

(** [field.isEmpty ? nil : field] *)
Definition nonEmpty (field : string) : option string :=
  if decide (field = EmptyString) then None else Some field.

(** [saveEntry]; [freshUUID] is [UUID().uuidString], [freshNonce] and [now]
    as for [updateEntry].  The result is the store and the error the view
    shows, if any. *)
Definition saveEntry (freshNonce : Data) (now freshUUID : string)
    (store : DatabaseStore.Store) (key : option Data) (profileId' : Z)
    (siteName username' password totpSecret notes : string)
  : DatabaseStore.Store * option string :=
  match key with
  | None => (store, Some "Session expired")
  | Some key =>
      let entryData :=
        mkVaultEntryData (nonEmpty username') (nonEmpty password)
                         (nonEmpty totpSecret) (nonEmpty notes) in
      match JSONEncoder_encode entryData with
      | failure e => (store, Some (localizedDescription e))
      | success jsonData =>
          match CryptoService.encrypt freshNonce jsonData key with
          | failure e => (store, Some (localizedDescription e))
          | success (ciphertext, nonce') =>
              let entry :=
                mkVaultEntry None siteName ciphertext nonce' profileId'
                  (Some freshUUID) now now None 1 in
              match DatabaseStore.saveEntry store entry with
              | (store', success _) => (store', None)
              | (store', failure e) =>
                  (store', Some (localizedDescription e))
              end
          end
      end
  end.

End WithPlatform.
End AddEntryView.

(** ** Further contracts of the libraries *)

(** [UInt8(_:radix:)] reads back the two lower-case hexadecimal digits that
    ["%02hhx"] prints for a byte. *)
Class HexContract `{Foundation} : Prop := {
  UInt8_radix16_hex2 : ∀ b, UInt8_radix16 (AuthService.hex2 b) = Some b
}.

(** [AES.GCM.SealedBox(nonce:ciphertext:tag:)] takes 16-byte tags only. *)
Class SealedBoxContract `{CryptoKit} : Prop := {
  SealedBox_init_tag_size : ∀ n c t sb,
    SealedBox_init n c t = success sb → length t = 16%nat
}.

(** ** BLECentralManager *)

Module CentralManager.

Inductive BLEState : Type :=
  | idle
  | scanning
  | connecting
  | connected
  | ready
  | pairing
  | transferring
  | complete
  | error (message : string).

#[global] Instance BLEState_eq_dec : EqDecision BLEState.
Proof. solve_decision. Defined.

Inductive SyncMode : Type := push | pull.

(** The characteristics of the sync service, by UUID, and any other UUID. *)
Inductive Characteristic : Type :=
  | modeChar
  | pairingChar
  | syncControlChar
  | dataTransferChar
  | otherChar (uuid : string).

#[global] Instance Characteristic_eq_dec : EqDecision Characteristic.
Proof. solve_decision. Defined.

Record DiscoveredDevice : Type := mkDiscoveredDevice {
  peripheral : string;      (* peripheral.identifier *)
  name : string;
  rssi : Z
}.

Record SyncProgress : Type := mkSyncProgress {
  mode : SyncMode;
  peerPublicKey : option Data;
  chunksReceived : Z;
  totalChunks : Z;
  entriesSynced : Z
}.

Definition SyncProgress_init : SyncProgress :=
  mkSyncProgress push None 0 0 0.

(** What the manager asks of CoreBluetooth. *)
Inductive Request : Type :=
  | scanForPeripherals
  | stopScan
  | connectPeripheral (identifier : string)
  | cancelPeripheralConnection (identifier : string)
  | discoverServices (identifier : string)
  | discoverCharacteristics (identifier : string)
  | writeValue (c : Characteristic) (data : Data)
  | readValue (c : Characteristic)
  | setNotifyValue (c : Characteristic).

(** The manager: its published state, whether the system reports
    Bluetooth as powered on, the connected peripheral, the UUIDs in its
    dictionary of characteristics, the notifications kept, and the requests
    it has made so far. *)
Record Manager : Type := mkManager {
  state : BLEState;
  discoveredDevices : list DiscoveredDevice;
  syncProgress : SyncProgress;
  poweredOn : bool;
  connectedPeripheral : option string;
  characteristics : list Characteristic;
  receivedChunks : list Data;
  requests : list Request
}.

Definition init (poweredOn' : bool) : Manager :=
  mkManager idle [] SyncProgress_init poweredOn' None [] [] [].

Definition setState (m : Manager) (s : BLEState) : Manager :=
  mkManager s (discoveredDevices m) (syncProgress m) (poweredOn m)
    (connectedPeripheral m) (characteristics m) (receivedChunks m)
    (requests m).

Definition request (m : Manager) (r : Request) : Manager :=
  mkManager (state m) (discoveredDevices m) (syncProgress m) (poweredOn m)
    (connectedPeripheral m) (characteristics m) (receivedChunks m)
    (requests m ++ [r]).

Definition setSyncProgress (m : Manager) (p : SyncProgress) : Manager :=
  mkManager (state m) (discoveredDevices m) p (poweredOn m)
    (connectedPeripheral m) (characteristics m) (receivedChunks m)
    (requests m).

Definition startScanning (m : Manager) : Manager :=
  if poweredOn m
  then
    mkManager scanning [] (syncProgress m) (poweredOn m)
      (connectedPeripheral m) (characteristics m) (receivedChunks m)
      (requests m ++ [scanForPeripherals])
  else setState m (error "Bluetooth is not available").

Definition stopScanning (m : Manager) : Manager :=
  let m' := request m stopScan in
  if decide (state m' = scanning) then setState m' idle else m'.

Definition connect (m : Manager) (device : DiscoveredDevice) : Manager :=
  let m' := stopScanning m in
  request (setState m' connecting) (connectPeripheral (peripheral device)).

Definition disconnect (m : Manager) : Manager :=
  let m' :=
    match connectedPeripheral m with
    | Some identifier => request m (cancelPeripheralConnection identifier)
    | None => m
    end in
  mkManager idle (discoveredDevices m') (syncProgress m') (poweredOn m')
    None [] (receivedChunks m') (requests m').

(** [guard let char = characteristics[uuid] else { return }] followed by a
    call on [connectedPeripheral?]. *)
Definition onCharacteristic (m : Manager) (c : Characteristic) (r : Request)
  : Manager :=
  if bool_decide (c ∈ characteristics m)
  then if connectedPeripheral m is Some _ then request m r else m
  else m.

Definition writePairingData (m : Manager) (data : Data) : Manager :=
  onCharacteristic m pairingChar (writeValue pairingChar data).

Definition readMode (m : Manager) : Manager :=
  onCharacteristic m modeChar (readValue modeChar).

Definition readPairingData (m : Manager) : Manager :=
  onCharacteristic m pairingChar (readValue pairingChar).

Definition writeSyncControl (m : Manager) (command : byte) : Manager :=
  onCharacteristic m syncControlChar (writeValue syncControlChar [command]).

Definition writeDataChunk (m : Manager) (data : Data) : Manager :=
  onCharacteristic m dataTransferChar (writeValue dataTransferChar data).

Definition subscribeToDataTransfer (m : Manager) : Manager :=
  onCharacteristic m dataTransferChar (setNotifyValue dataTransferChar).

Definition subscribeToSyncControl (m : Manager) : Manager :=
  onCharacteristic m syncControlChar (setNotifyValue syncControlChar).

(** [centralManagerDidUpdateState]; [poweredOn'] tells whether the new state
    of the system is [.poweredOn]. *)
Definition didUpdateState (m : Manager) (poweredOn' : bool) : Manager :=
  let m' :=
    mkManager (state m) (discoveredDevices m) (syncProgress m) poweredOn'
      (connectedPeripheral m) (characteristics m) (receivedChunks m)
      (requests m) in
  if negb poweredOn' && bool_decide (state m' = scanning)
  then setState m' (error "Bluetooth turned off")
  else m'.

(** [didDiscover]; [peripheralName] is [peripheral.name] and [localName] the
    local name of the advertisement. *)
Definition didDiscover (m : Manager) (identifier : string)
    (peripheralName localName : option string) (rssi' : Z) : Manager :=
  let name' := default (default "Unknown" localName) peripheralName in
  let device := mkDiscoveredDevice identifier name' rssi' in
  if bool_decide (Exists (fun d => peripheral d = identifier)
                         (discoveredDevices m))
  then m
  else
    mkManager (state m) (discoveredDevices m ++ [device]) (syncProgress m)
      (poweredOn m) (connectedPeripheral m) (characteristics m)
      (receivedChunks m) (requests m).

Definition didConnect (m : Manager) (identifier : string) : Manager :=
  mkManager connected (discoveredDevices m) (syncProgress m) (poweredOn m)
    (Some identifier) (characteristics m) (receivedChunks m)
    (requests m ++ [discoverServices identifier]).

Definition didFailToConnect (m : Manager) (description : option string)
  : Manager :=
  setState m (error ("Connection failed: " +:+ default "unknown" description)).

Definition didDisconnectPeripheral (m : Manager) : Manager :=
  let m' :=
    mkManager (state m) (discoveredDevices m) (syncProgress m) (poweredOn m)
      None [] (receivedChunks m) (requests m) in
  if decide (state m' ≠ idle)
  then setState m' (error "Disconnected unexpectedly")
  else m'.

(** [didDiscoverServices]; [found] tells whether the peripheral lists the
    sync service. *)
Definition didDiscoverServices (m : Manager) (identifier : string)
    (found : bool) : Manager :=
  if found then request m (discoverCharacteristics identifier) else m.

(** [didDiscoverCharacteristicsFor]; [chars] are the UUIDs of
    [service.characteristics ?? []]. *)
Definition didDiscoverCharacteristics (m : Manager)
    (chars : list Characteristic) : Manager :=
  mkManager ready (discoveredDevices m) (syncProgress m) (poweredOn m)
    (connectedPeripheral m)
    (foldl (fun known c => if bool_decide (c ∈ known) then known
                           else known ++ [c])
           (characteristics m) chars)
    (receivedChunks m) (requests m).

Definition handleSyncControl (m : Manager) (control : byte) : Manager :=
  if decide (control = x04) then setState m complete
  else if decide (control = x03)
  then setState m (error "Sync aborted by desktop")
  else m.

(** [didUpdateValueFor]; [value] is [characteristic.value]. *)
Definition didUpdateValue (m : Manager) (c : Characteristic)
    (value : option Data) : Manager :=
  match value with
  | None => m
  | Some data =>
      match c with
      | modeChar =>
          match data with
          | mode' :: _ =>
              setSyncProgress m
                (mkSyncProgress (if decide (mode' = x01) then push else pull)
                   (peerPublicKey (syncProgress m))
                   (chunksReceived (syncProgress m))
                   (totalChunks (syncProgress m))
                   (entriesSynced (syncProgress m)))
          | [] => m
          end
      | pairingChar =>
          setSyncProgress m
            (mkSyncProgress (mode (syncProgress m)) (Some data)
               (chunksReceived (syncProgress m))
               (totalChunks (syncProgress m))
               (entriesSynced (syncProgress m)))
      | syncControlChar =>
          match data with
          | ctrl :: _ => handleSyncControl m ctrl
          | [] => m
          end
      | dataTransferChar =>
          let chunks := receivedChunks m ++ [data] in
          mkManager (state m) (discoveredDevices m)
            (mkSyncProgress (mode (syncProgress m))
               (peerPublicKey (syncProgress m))
               (Z.of_nat (length chunks))
               (totalChunks (syncProgress m))
               (entriesSynced (syncProgress m)))
            (poweredOn m) (connectedPeripheral m) (characteristics m)
            chunks (requests m)
      | otherChar _ => m
      end
  end.

(** The calls of the public API and the callbacks of CoreBluetooth. *)
Inductive Event : Type :=
  | callStartScanning
  | callStopScanning
  | callConnect (device : DiscoveredDevice)
  | callDisconnect
  | callWritePairingData (data : Data)
  | callReadMode
  | callReadPairingData
  | callWriteSyncControl (command : byte)
  | callWriteDataChunk (data : Data)
  | callSubscribeToDataTransfer
  | callSubscribeToSyncControl
  | onDidUpdateState (poweredOn' : bool)
  | onDidDiscover (identifier : string) (peripheralName localName : option string)
                  (rssi' : Z)
  | onDidConnect (identifier : string)
  | onDidFailToConnect (description : option string)
  | onDidDisconnectPeripheral
  | onDidDiscoverServices (identifier : string) (found : bool)
  | onDidDiscoverCharacteristics (chars : list Characteristic)
  | onDidUpdateValue (c : Characteristic) (value : option Data).

Definition step (m : Manager) (ev : Event) : Manager :=
  match ev with
  | callStartScanning => startScanning m
  | callStopScanning => stopScanning m
  | callConnect device => connect m device
  | callDisconnect => disconnect m
  | callWritePairingData data => writePairingData m data
  | callReadMode => readMode m
  | callReadPairingData => readPairingData m
  | callWriteSyncControl command => writeSyncControl m command
  | callWriteDataChunk data => writeDataChunk m data
  | callSubscribeToDataTransfer => subscribeToDataTransfer m
  | callSubscribeToSyncControl => subscribeToSyncControl m
  | onDidUpdateState poweredOn' => didUpdateState m poweredOn'
  | onDidDiscover identifier peripheralName localName rssi' =>
      didDiscover m identifier peripheralName localName rssi'
  | onDidConnect identifier => didConnect m identifier
  | onDidFailToConnect description => didFailToConnect m description
  | onDidDisconnectPeripheral => didDisconnectPeripheral m
  | onDidDiscoverServices identifier found =>
      didDiscoverServices m identifier found
  | onDidDiscoverCharacteristics chars => didDiscoverCharacteristics m chars
  | onDidUpdateValue c value => didUpdateValue m c value
  end.

Definition run (m : Manager) (events : list Event) : Manager :=
  foldl step m events.

(** A request that reads, writes or subscribes to a characteristic. *)
Definition onPeripheral (r : Request) : Prop :=
  match r with
  | writeValue _ _ | readValue _ | setNotifyValue _ => True
  | _ => False
  end.

End CentralManager.

(** ** SyncOrchestrator: the flow around pairing *)

Module SyncFlow.
Section WithPlatform.
Context `{CryptoKit}.

Record Orchestrator : Type := mkOrchestrator {
  state : SyncOrchestrator.SyncState;
  progress : string;
  entriesSynced : Z;
  sessionKey : option Data;
  reassembler : option BLEProtocol.ChunkReassembler;
  bleManager : CentralManager.Manager
}.

Definition init (poweredOn : bool) : Orchestrator :=
  mkOrchestrator SyncOrchestrator.idle EmptyString 0 None None
    (CentralManager.init poweredOn).

Definition startSync (self : Orchestrator) : Orchestrator :=
  mkOrchestrator SyncOrchestrator.scanning (progress self)
    (entriesSynced self) (sessionKey self) (reassembler self)
    (CentralManager.startScanning (bleManager self)).

Definition connectToDevice (self : Orchestrator)
    (device : CentralManager.DiscoveredDevice) : Orchestrator :=
  mkOrchestrator (state self) (progress self) (entriesSynced self)
    (sessionKey self) (reassembler self)
    (CentralManager.connect (bleManager self) device).

(** [submitPairingCode] on the whole orchestrator. *)
Definition submitPairingCode (freshKey : P256_PrivateKey)
    (self : Orchestrator) (code : string) : Orchestrator :=
  let withState s :=
    mkOrchestrator s (progress self) (entriesSynced self) (sessionKey self)
      (reassembler self) (bleManager self) in
  match CentralManager.peerPublicKey
          (CentralManager.syncProgress (bleManager self)) with
  | None => withState (SyncOrchestrator.error "No peer public key received")
  | Some peerPublicKeyData =>
      match PublicKey_compactRepresentation peerPublicKeyData with
      | failure e =>
          withState
            (SyncOrchestrator.error
               ("Pairing failed: " +:+ localizedDescription e))
      | success peerPublicKey =>
          let privateKey := freshKey in
          let publicKeyData := compressedRepresentation (publicKey privateKey) in
          let hmac := CryptoService.computePairingHMAC code publicKeyData in
          let pairingPayload := publicKeyData ++ hmac in
          let ble :=
            CentralManager.writePairingData (bleManager self) pairingPayload in
          match CryptoService.deriveSessionKey privateKey peerPublicKey with
          | failure e =>
              mkOrchestrator
                (SyncOrchestrator.error
                   ("Pairing failed: " +:+ localizedDescription e))
                (progress self) (entriesSynced self) (sessionKey self)
                (reassembler self) ble
          | success key =>
              mkOrchestrator SyncOrchestrator.paired (progress self)
                (entriesSynced self) (Some key) (reassembler self) ble
          end
      end
  end.

Definition startDataTransfer (self : Orchestrator) : Orchestrator :=
  match sessionKey self with
  | None =>
      mkOrchestrator (SyncOrchestrator.error "Not paired") (progress self)
        (entriesSynced self) (sessionKey self) (reassembler self)
        (bleManager self)
  | Some _ =>
      mkOrchestrator SyncOrchestrator.transferring "Starting transfer..."
        (entriesSynced self) (sessionKey self) (reassembler self)
        (CentralManager.writeSyncControl
           (CentralManager.subscribeToSyncControl
              (CentralManager.subscribeToDataTransfer (bleManager self)))
           x01)
  end.

Definition cancel (self : Orchestrator) : Orchestrator :=
  mkOrchestrator SyncOrchestrator.idle (progress self) (entriesSynced self)
    None None (CentralManager.disconnect (bleManager self)).

(** [handleBLEStateChange], which the subscription set up in [init] calls
    with every state the manager publishes. *)
Definition handleBLEStateChange (self : Orchestrator)
    (bleState : CentralManager.BLEState) : Orchestrator :=
  match bleState with
  | CentralManager.ready =>
      mkOrchestrator SyncOrchestrator.pairing (progress self)
        (entriesSynced self) (sessionKey self) (reassembler self)
        (CentralManager.readPairingData
           (CentralManager.readMode (bleManager self)))
  | CentralManager.complete =>
      mkOrchestrator SyncOrchestrator.complete (progress self)
        (entriesSynced self) (sessionKey self) (reassembler self)
        (bleManager self)
  | CentralManager.error msg =>
      mkOrchestrator (SyncOrchestrator.error msg) (progress self)
        (entriesSynced self) (sessionKey self) (reassembler self)
        (bleManager self)
  | _ => self
  end.

(** What the user and the manager do to an orchestrator. *)
Inductive Action : Type :=
  | doStartSync
  | doConnectToDevice (device : CentralManager.DiscoveredDevice)
  | doSubmitPairingCode (freshKey : P256_PrivateKey) (code : string)
  | doStartDataTransfer
  | doCancel
  | doHandleBLEStateChange (bleState : CentralManager.BLEState)
  | doBLE (event : CentralManager.Event).

Definition act (self : Orchestrator) (a : Action) : Orchestrator :=
  match a with
  | doStartSync => startSync self
  | doConnectToDevice device => connectToDevice self device
  | doSubmitPairingCode freshKey code => submitPairingCode freshKey self code
  | doStartDataTransfer => startDataTransfer self
  | doCancel => cancel self
  | doHandleBLEStateChange bleState => handleBLEStateChange self bleState
  | doBLE event =>
      mkOrchestrator (state self) (progress self) (entriesSynced self)
        (sessionKey self) (reassembler self)
        (CentralManager.step (bleManager self) event)
  end.

Definition perform (self : Orchestrator) (actions : list Action)
  : Orchestrator :=
  foldl act self actions.

End WithPlatform.
End SyncFlow.

(** ** Events of a run *)

(** The payload of a notification on the Data Transfer characteristic. *)
Definition dataNotification (ev : CentralManager.Event) : option Data :=
  match ev with
  | CentralManager.onDidUpdateValue CentralManager.dataTransferChar
      (Some data) => Some data
  | _ => None
  end.

(** A value of the Sync Control characteristic that starts with the opcode
    0x04. *)
Definition completeNotification (ev : CentralManager.Event) : Prop :=
  match ev with
  | CentralManager.onDidUpdateValue CentralManager.syncControlChar
      (Some (ctrl :: _)) => ctrl = x04
  | _ => False
  end.

Definition didConnectEvent (ev : CentralManager.Event) : Prop :=
  match ev with
  | CentralManager.onDidConnect _ => True
  | _ => False
  end.

Definition pairingAction `{CryptoKit} (a : SyncFlow.Action) : Prop :=
  match a with
  | SyncFlow.doSubmitPairingCode _ _ => True
  | _ => False
  end.

(** ** Tactics for the case analyses on calls and callbacks *)

Ltac unfold_manager :=
  unfold CentralManager.step, CentralManager.startScanning,
    CentralManager.connect, CentralManager.stopScanning,
    CentralManager.disconnect, CentralManager.writePairingData,
    CentralManager.readMode, CentralManager.readPairingData,
    CentralManager.writeSyncControl, CentralManager.writeDataChunk,
    CentralManager.subscribeToDataTransfer,
    CentralManager.subscribeToSyncControl, CentralManager.onCharacteristic,
    CentralManager.didUpdateState, CentralManager.didDiscover,
    CentralManager.didConnect, CentralManager.didFailToConnect,
    CentralManager.didDisconnectPeripheral,
    CentralManager.didDiscoverServices,
    CentralManager.didDiscoverCharacteristics,
    CentralManager.didUpdateValue, CentralManager.handleSyncControl,
    CentralManager.setState, CentralManager.request,
    CentralManager.setSyncProgress in *;
  cbn [CentralManager.state CentralManager.discoveredDevices
       CentralManager.syncProgress CentralManager.poweredOn
       CentralManager.connectedPeripheral CentralManager.characteristics
       CentralManager.receivedChunks CentralManager.requests
       CentralManager.mode CentralManager.peerPublicKey
       CentralManager.chunksReceived CentralManager.totalChunks
       CentralManager.entriesSynced] in *.

Ltac manager_cases :=
  unfold_manager;
  repeat (first [case_match | case_decide | case_bool_decide];
          simplify_eq;
          cbn [CentralManager.state CentralManager.discoveredDevices
               CentralManager.syncProgress CentralManager.poweredOn
               CentralManager.connectedPeripheral
               CentralManager.characteristics CentralManager.receivedChunks
               CentralManager.requests CentralManager.mode
               CentralManager.peerPublicKey CentralManager.chunksReceived
               CentralManager.totalChunks CentralManager.entriesSynced] in *).

Ltac unfold_flow :=
  unfold SyncFlow.act, SyncFlow.startSync, SyncFlow.connectToDevice,
    SyncFlow.submitPairingCode, SyncFlow.startDataTransfer, SyncFlow.cancel,
    SyncFlow.handleBLEStateChange in *;
  cbn [SyncFlow.state SyncFlow.progress SyncFlow.entriesSynced
       SyncFlow.sessionKey SyncFlow.reassembler SyncFlow.bleManager] in *.

(** * Properties *)

(** ** Bytes and little-endian words *)

Lemma UInt8_toZ_range (b : byte) : 0 ≤ UInt8_toZ b < 256.
Proof.
  unfold UInt8_toZ. pose proof (Byte.to_N_bounded b) as Hb. lia.
Qed.

Lemma UInt8_toZ_inj (b b' : byte) : UInt8_toZ b = UInt8_toZ b' → b = b'.
Proof.
  unfold UInt8_toZ. intros Heq. apply N2Z.inj in Heq.
  pose proof (Byte.of_to_N b) as H1. pose proof (Byte.of_to_N b') as H2.
  rewrite Heq in H1. congruence.
Qed.

Lemma UInt8_toZ_ofZ (z : Z) : UInt8_toZ (UInt8_ofZ z) = z mod 256.
Proof.
  unfold UInt8_toZ, UInt8_ofZ.
  assert (Hr : 0 ≤ z mod 256 < 256) by (apply Z.mod_pos_bound; lia).
  destruct (Byte.of_N (Z.to_N (z mod 256))) as [b|] eqn:Hb; simpl.
  - apply Byte.to_of_N in Hb. rewrite Hb. lia.
  - apply Byte.of_N_None_iff in Hb. lia.
Qed.

Lemma UInt8_ofZ_toZ (b : byte) : UInt8_ofZ (UInt8_toZ b) = b.
Proof.
  apply UInt8_toZ_inj. rewrite UInt8_toZ_ofZ.
  apply Z.mod_small, UInt8_toZ_range.
Qed.

(** ** Chunking *)

Lemma subdata_payloadAt (d : Data) (i : Z) :
  0 ≤ i →
  subdata d (i * BLEProtocol.maxChunkData)
    (Z.min (i * BLEProtocol.maxChunkData + BLEProtocol.maxChunkData)
           (Z.of_nat (length d)))
  = payloadAt d i.
Proof.
  intros Hi. unfold subdata, payloadAt, BLEProtocol.maxChunkData.
  replace (Z.to_nat (i * 493)) with (Z.to_nat i * 493)%nat by lia.
  set (s := (Z.to_nat i * 493)%nat).
  destruct (decide (Z.of_nat s + 493 ≤ Z.of_nat (length d))) as [Hle|Hgt].
  - f_equal. lia.
  - rewrite (take_ge (drop s d) 493) by (rewrite length_drop; lia).
    apply take_ge. rewrite length_drop. lia.
Qed.

(** [chunkData] only takes sub-ranges inside the buffer. *)
Lemma chunk_range_valid (d : Data) (i : Z) :
  0 ≤ i < BLEProtocol.chunkCount d →
  let start := i * BLEProtocol.maxChunkData in
  let end_ := Z.min (start + BLEProtocol.maxChunkData) (Z.of_nat (length d)) in
  0 ≤ start ≤ end_ ∧ end_ ≤ Z.of_nat (length d).
Proof.
  unfold BLEProtocol.chunkCount, BLEProtocol.maxChunkData. intros [Hi Hlt].
  cbv zeta.
  assert (i * 493 ≤ Z.of_nat (length d)).
  { destruct (Z.max_spec 1 ((Z.of_nat (length d) + 493 - 1) / 493))
      as [[_ Hm]|[_ Hm]]; rewrite Hm in Hlt.
    - assert (Hq : i + 1 ≤ (Z.of_nat (length d) + 493 - 1) / 493) by lia.
      pose proof (Z.mul_div_le (Z.of_nat (length d) + 493 - 1) 493 ltac:(lia)).
      nia.
    - lia. }
  lia.
Qed.

Lemma chunkCount_bounds (d : Data) :
  1 ≤ BLEProtocol.chunkCount d
  ∧ Z.of_nat (length d) ≤ BLEProtocol.chunkCount d * 493
  ∧ (Z.of_nat (length d) ≤ 10485760 → BLEProtocol.chunkCount d ≤ 65535).
Proof.
  unfold BLEProtocol.chunkCount, BLEProtocol.maxChunkData.
  set (len := Z.of_nat (length d)).
  assert (Hlen : 0 ≤ len) by (unfold len; lia).
  pose proof (Z.div_mod (len + 493 - 1) 493 ltac:(lia)) as Hdm.
  pose proof (Z.mod_pos_bound (len + 493 - 1) 493 ltac:(lia)) as Hmod.
  repeat split; try lia.
Qed.

Lemma concat_payloads (d : Data) (m k : nat) :
  concat ((fun i => take 493 (drop (i * 493) d)) <$> seq k m)
  = take (m * 493) (drop (k * 493) d).
Proof.
  revert k. induction m as [|m IH]; intros k; [done|].
  replace (S m * 493)%nat with (493 + m * 493)%nat by lia.
  rewrite <- (take_take_drop (drop (k * 493) d) 493 (m * 493)).
  rewrite drop_drop. cbn [seq fmap list_fmap concat]. rewrite IH.
  do 3 f_equal. lia.
Qed.

Lemma concat_payloadAt (d : Data) (n : Z) :
  Z.of_nat (length d) ≤ n * 493 →
  concat (payloadAt d <$> seqZ 0 n) = d.
Proof.
  intros Hn. unfold seqZ. rewrite <- list_fmap_compose.
  rewrite (list_fmap_ext _ (fun i => take 493 (drop (i * 493) d)) (seq 0 (Z.to_nat n))).
  - rewrite concat_payloads. simpl. rewrite drop_0. apply take_ge. lia.
  - intros i x _. unfold payloadAt. simpl. do 3 f_equal. lia.
Qed.

Lemma makeChunk_chunkAt (d : Data) (i : Z) :
  0 ≤ i ≤ 65535 →
  BLEProtocol.makeChunk d (BLEProtocol.chunkCount d) i = Some (chunkAt d i).
Proof.
  intros Hi. unfold BLEProtocol.makeChunk, chunkAt.
  rewrite subdata_payloadAt by lia.
  unfold UInt16_init. rewrite decide_True by lia. done.
Qed.

Lemma mapM_total {A B : Type} (f : A → option B) (g : A → B) (l : list A) :
  Forall (fun x => f x = Some (g x)) l → mapM f l = Some (g <$> l).
Proof.
  induction 1 as [|x l Hx _ IH]; simpl; [done|].
  rewrite Hx. simpl. rewrite IH. done.
Qed.

Lemma chunkData_chunkAt (d : Data) :
  BLEProtocol.chunkCount d ≤ 65535 →
  BLEProtocol.chunkData d
  = Some (chunkAt d <$> seqZ 0 (BLEProtocol.chunkCount d)).
Proof.
  intros Hn. pose proof (chunkCount_bounds d) as (H1 & _ & _).
  unfold BLEProtocol.chunkData, UInt16_init.
  rewrite decide_True by lia. simpl.
  apply mapM_total. apply Forall_seqZ. intros i Hi.
  apply makeChunk_chunkAt. lia.
Qed.

(** ** Reassembly *)

Lemma addChunk_fresh (d : Data) (n : Z) (received : list Z) (k : Z) :
  n = BLEProtocol.chunkCount d → n ≤ 65535 → 0 ≤ k < n → k ∉ received →
  BLEProtocol.addChunk (reassemblerWith d n received) (chunkAt d k)
  = Some (reassemblerWith d n (k :: received),
          success (bool_decide (Z.of_nat (length (k :: received)) = n))).
Proof.
  intros Hn Hmax Hk Hfresh. unfold BLEProtocol.addChunk, reassemblerWith.
  cbn [BLEProtocol.r_total BLEProtocol.r_chunks BLEProtocol.receivedCount
       BLEProtocol.total BLEProtocol.index BLEProtocol.data chunkAt].
  unfold UInt16_init.
  rewrite (decide_True (P := 0 ≤ n ≤ 65535)) by lia. cbn [mbind option_bind].
  rewrite (decide_False (P := BLEProtocol.chunkCount d ≠ n))
    by (rewrite <- Hn; intros Hne; by apply Hne).
  rewrite (decide_False (P := ¬ k < n)) by lia.
  rewrite list_lookup_fmap, lookup_seqZ_lt by lia.
  cbn [fmap option_fmap option_map mbind option_bind].
  replace (0 + Z.of_nat (Z.to_nat k)) with k by lia.
  rewrite (decide_False (P := k ∈ received)) by done.
  replace (Z.of_nat (length (k :: received)))
    with (Z.of_nat (length received) + 1) by (cbn [length]; lia).
  do 3 f_equal. apply list_eq. intros j.
  destruct (decide (j = Z.to_nat k)) as [->|Hj].
  - rewrite list_lookup_insert_eq
      by (rewrite length_fmap, length_seqZ; lia).
    rewrite list_lookup_fmap, lookup_seqZ_lt by lia.
    cbn [fmap option_fmap option_map].
    replace (0 + Z.of_nat (Z.to_nat k)) with k by lia.
    by rewrite decide_True by apply list_elem_of_here.
  - rewrite list_lookup_insert_ne by done. rewrite !list_lookup_fmap.
    destruct (seqZ 0 n !! j) as [i|] eqn:Hi; [|done].
    cbn [fmap option_fmap option_map]. apply lookup_seqZ in Hi as [-> Hlt].
    destruct (decide (0 + Z.of_nat j ∈ received)) as [Hin|Hnin].
    + by rewrite decide_True by (by apply list_elem_of_further).
    + rewrite decide_False; [done|].
      intros [Heq|Hin]%elem_of_cons; [lia|done].
Qed.

Lemma NoDup_app_move {A : Type} (k : A) (ks received : list A) :
  k ∉ ks ++ received → NoDup (ks ++ received) → NoDup (ks ++ k :: received).
Proof.
  intros Hfresh Hnodup. apply NoDup_app in Hnodup as (Hks & Hdisj & Hrec).
  apply NoDup_app. split; [done|]. split.
  - intros x Hx [->|Hin]%elem_of_cons.
    + apply Hfresh. set_solver.
    + by apply (Hdisj x).
  - apply NoDup_cons. split; [set_solver|done].
Qed.

Lemma addChunks_any_order (d : Data) (n : Z) (ks received : list Z) :
  n = BLEProtocol.chunkCount d → n ≤ 65535 →
  NoDup (ks ++ received) → Forall (fun k => 0 ≤ k < n) ks →
  addChunks (reassemblerWith d n received) (chunkAt d <$> ks)
  = Some (success (reassemblerWith d n (reverse ks ++ received))).
Proof.
  intros Hn Hmax. revert received.
  induction ks as [|k ks IH]; intros received Hnodup Hrange; [done|].
  apply Forall_cons in Hrange as [Hk Hrange].
  cbn [app] in Hnodup. apply NoDup_cons in Hnodup as [Hfresh Hnodup].
  cbn [fmap list_fmap addChunks].
  rewrite addChunk_fresh; [|done|done|done|].
  2: { intros Hin. apply Hfresh, elem_of_app. by right. }
  cbn [mbind option_bind]. rewrite IH; [|by apply NoDup_app_move|done].
  by rewrite reverse_cons, <- app_assoc.
Qed.

Lemma reassemble_loop_filled (ps : list Data) (i : Z) (acc : Data) :
  BLEProtocol.reassemble_loop i (Some <$> ps) acc = success (acc ++ concat ps).
Proof.
  revert i acc. induction ps as [|p ps IH]; intros i acc; simpl.
  - by rewrite app_nil_r.
  - rewrite IH. by rewrite <- app_assoc.
Qed.

Lemma reassemble_complete (d : Data) (n : Z) (received : list Z) :
  Z.of_nat (length d) ≤ n * 493 →
  Z.of_nat (length received) = n →
  (∀ i, 0 ≤ i < n → i ∈ received) →
  BLEProtocol.reassemble (reassemblerWith d n received) = success d.
Proof.
  intros Hn Hcount Hall. unfold BLEProtocol.reassemble, reassemblerWith.
  cbn [BLEProtocol.r_total BLEProtocol.r_chunks BLEProtocol.receivedCount].
  rewrite decide_False by (intros Hne; by apply Hne).
  rewrite (list_fmap_ext _ (Some ∘ payloadAt d) (seqZ 0 n)).
  - rewrite (list_fmap_compose (payloadAt d) Some).
    rewrite reassemble_loop_filled. simpl. f_equal. by apply concat_payloadAt.
  - intros j i Hi. apply lookup_seqZ in Hi as [-> Hlt].
    by rewrite decide_True by (apply Hall; lia).
Qed.

Lemma init_reassemblerWith (d : Data) (n : Z) :
  0 ≤ n → BLEProtocol.init n = Some (reassemblerWith d n []).
Proof.
  intros Hn. unfold BLEProtocol.init, reassemblerWith.
  rewrite decide_True by lia. do 2 f_equal.
  rewrite <- (length_seqZ 0 n). symmetry. apply const_fmap.
  intros i x _. apply decide_False. apply not_elem_of_nil.
Qed.

(** ** CRC32 *)

(** The check value of CRC-32/ISO-HDLC. *)
Example crc32_check_value : CRC32.compute (utf8 "123456789") = 0xCBF43926.
Proof. reflexivity. Qed.

Lemma table_length : length CRC32.table = 256%nat.
Proof. reflexivity. Qed.

Lemma table_range : Forall (fun t => 0 ≤ t < 2 ^ 32) CRC32.table.
Proof. apply (bool_decide_unpack _). by vm_compute. Qed.


Lemma testbit_small (a n i : Z) :
  0 ≤ a < 2 ^ n → 0 ≤ n ≤ i → Z.testbit a i = false.
Proof.
  intros Ha Hi. rewrite <- (Z.mod_small a (2 ^ n)) by lia.
  apply Z.mod_pow2_bits_high. lia.
Qed.

Lemma lxor_range (a b n : Z) :
  0 ≤ n → 0 ≤ a < 2 ^ n → 0 ≤ b < 2 ^ n → 0 ≤ Z.lxor a b < 2 ^ n.
Proof.
  intros Hn Ha Hb.
  assert (H0 : 0 ≤ Z.lxor a b) by (apply Z.lxor_nonneg; lia).
  split; [done|].
  destruct (decide (Z.lxor a b = 0)) as [->|Hne]; [lia|].
  apply Z.log2_lt_pow2; [lia|].
  pose proof (Z.log2_lxor a b ltac:(lia) ltac:(lia)) as Hlog.
  assert (0 < n).
  { destruct (decide (n = 0)) as [->|?]; [|lia].
    assert (a = 0) as -> by lia. assert (b = 0) as -> by lia. done. }
  assert (Z.log2 a < n).
  { destruct (decide (a = 0)) as [->|?]; [simpl; lia|].
    apply Z.log2_lt_pow2; lia. }
  assert (Z.log2 b < n).
  { destruct (decide (b = 0)) as [->|?]; [simpl; lia|].
    apply Z.log2_lt_pow2; lia. }
  lia.
Qed.

Lemma index_range (x : Z) : 0 ≤ Z.land x 0xFF < 256.
Proof.
  change 0xFF with (Z.ones 8). rewrite Z.land_ones by lia.
  apply Z.mod_pos_bound. lia.
Qed.

(** The subscript of [table] in [update] is always inside the table. *)
Lemma table_index_in_range (crc : Z) (byte : byte) :
  is_Some (CRC32.table
             !! Z.to_nat (Z.land (Z.lxor crc (UInt8_toZ byte)) 0xFF)).
Proof.
  apply lookup_lt_is_Some. rewrite table_length.
  pose proof (index_range (Z.lxor crc (UInt8_toZ byte))). lia.
Qed.

Lemma table_lookup (i : Z) :
  0 ≤ i < 256 →
  CRC32.table !! Z.to_nat i = Some (CRC32.table !!! Z.to_nat i)
  ∧ 0 ≤ CRC32.table !!! Z.to_nat i < 2 ^ 32.
Proof.
  intros Hi.
  assert (Hl : CRC32.table !! Z.to_nat i = Some (CRC32.table !!! Z.to_nat i)).
  { apply list_lookup_lookup_total_lt. rewrite table_length. lia. }
  split; [done|].
  eapply (Forall_lookup_1 _ _ _ _ table_range Hl).
Qed.



Lemma update_range (crc : Z) (b : byte) :
  0 ≤ crc < 2 ^ 32 → 0 ≤ CRC32.update crc b < 2 ^ 32.
Proof.
  intros Hc. unfold CRC32.update.
  destruct (table_lookup _ (index_range (Z.lxor crc (UInt8_toZ b)))) as [_ Ht].
  apply lxor_range; [lia|done|].
  rewrite Z.shiftr_div_pow2 by lia. split.
  - apply Z.div_pos; lia.
  - apply Z.div_lt_upper_bound; lia.
Qed.



Lemma foldl_update_range (l : Data) (crc : Z) :
  0 ≤ crc < 2 ^ 32 → 0 ≤ foldl CRC32.update crc l < 2 ^ 32.
Proof.
  revert crc. induction l as [|b l IH]; intros crc Hc; simpl; [done|].
  apply IH, update_range, Hc.
Qed.


Lemma compute_range (d : Data) : 0 ≤ CRC32.compute d < 2 ^ 32.
Proof.
  unfold CRC32.compute. apply lxor_range; [lia| |lia].
  apply foldl_update_range. lia.
Qed.



(** ** The wire form of a chunk *)

Lemma testbit_UInt8 (z i : Z) :
  0 ≤ i →
  Z.testbit (UInt8_toZ (UInt8_ofZ z)) i
  = if decide (i < 8) then Z.testbit z i else false.
Proof.
  intros Hi. rewrite UInt8_toZ_ofZ. change 256 with (2 ^ 8).
  destruct (decide (i < 8)).
  - apply Z.mod_pow2_bits_low. lia.
  - apply Z.mod_pow2_bits_high. lia.
Qed.

Lemma loadLittleEndian_testbit (b : byte) (bs : Data) (i : Z) :
  0 ≤ i →
  Z.testbit (loadLittleEndian (b :: bs)) i
  = if decide (i < 8) then Z.testbit (UInt8_toZ b) i
    else Z.testbit (loadLittleEndian bs) (i - 8).
Proof.
  intros Hi. simpl. rewrite Z.lor_spec, Z.shiftl_spec by lia.
  destruct (decide (i < 8)).
  - rewrite (Z.testbit_neg_r _ (i - 8)) by lia. apply orb_false_r.
  - rewrite (testbit_small (UInt8_toZ b) 8 i); [done| |lia].
    apply UInt8_toZ_range.
Qed.

Lemma loadLittleEndian32 (v : Z) :
  0 ≤ v < 2 ^ 32 → loadLittleEndian (littleEndian32 v) = v.
Proof.
  intros Hv. apply Z.bits_inj'. intros i Hi. unfold littleEndian32.
  rewrite loadLittleEndian_testbit by lia.
  destruct (decide (i < 8)).
  { rewrite testbit_UInt8 by lia. by rewrite decide_True by lia. }
  rewrite loadLittleEndian_testbit by lia.
  destruct (decide (i - 8 < 8)).
  { rewrite testbit_UInt8 by lia. rewrite decide_True by lia.
    rewrite Z.shiftr_spec by lia. f_equal. lia. }
  rewrite loadLittleEndian_testbit by lia.
  destruct (decide (i - 8 - 8 < 8)).
  { rewrite testbit_UInt8 by lia. rewrite decide_True by lia.
    rewrite Z.shiftr_spec by lia. f_equal. lia. }
  rewrite loadLittleEndian_testbit by lia.
  destruct (decide (i - 8 - 8 - 8 < 8)).
  { rewrite testbit_UInt8 by lia. rewrite decide_True by lia.
    rewrite Z.shiftr_spec by lia. f_equal. lia. }
  simpl. rewrite Z.testbit_0_l. symmetry. apply (testbit_small v 32 i); lia.
Qed.

Lemma toBytes_length (c : BLEProtocol.Chunk) :
  length (BLEProtocol.toBytes c) = (8 + length (BLEProtocol.data c))%nat.
Proof. reflexivity. Qed.

Lemma toBytes_stored_crc (c : BLEProtocol.Chunk) :
  subdata (BLEProtocol.toBytes c) 4 8 = littleEndian32 (BLEProtocol.crc32 c).
Proof. reflexivity. Qed.

Lemma toBytes_payload (c : BLEProtocol.Chunk) :
  subdata (BLEProtocol.toBytes c) 8
          (Z.of_nat (length (BLEProtocol.toBytes c)))
  = BLEProtocol.data c.
Proof.
  rewrite toBytes_length. unfold subdata, BLEProtocol.toBytes.
  change (Z.to_nat 8) with 8%nat. cbn [littleEndian16 littleEndian32 app drop].
  apply take_ge. lia.
Qed.



Lemma loadLittleEndian16 (v : Z) :
  0 ≤ v < 2 ^ 16 → loadLittleEndian (littleEndian16 v) = v.
Proof.
  intros Hv. apply Z.bits_inj'. intros i Hi. unfold littleEndian16.
  rewrite loadLittleEndian_testbit by lia.
  destruct (decide (i < 8)).
  { rewrite testbit_UInt8 by lia. by rewrite decide_True by lia. }
  rewrite loadLittleEndian_testbit by lia.
  destruct (decide (i - 8 < 8)).
  { rewrite testbit_UInt8 by lia. rewrite decide_True by lia.
    rewrite Z.shiftr_spec by lia. f_equal. lia. }
  simpl. rewrite Z.testbit_0_l. symmetry. apply (testbit_small v 16 i); lia.
Qed.

(** A chunk with 16-bit index and total and the CRC32 of its payload
    survives the wire. *)
Lemma fromBytes_toBytes (c : BLEProtocol.Chunk) :
  0 ≤ BLEProtocol.index c < 2 ^ 16 →
  0 ≤ BLEProtocol.total c < 2 ^ 16 →
  BLEProtocol.crc32 c = CRC32.compute (BLEProtocol.data c) →
  BLEProtocol.fromBytes (BLEProtocol.toBytes c) = success c.
Proof.
  intros Hindex Htotal Hcrc. unfold BLEProtocol.fromBytes.
  rewrite decide_False by (rewrite toBytes_length; lia).
  rewrite toBytes_payload, toBytes_stored_crc.
  change (subdata (BLEProtocol.toBytes c) 0 2)
    with (littleEndian16 (BLEProtocol.index c)).
  change (subdata (BLEProtocol.toBytes c) 2 4)
    with (littleEndian16 (BLEProtocol.total c)).
  rewrite !loadLittleEndian16 by done.
  rewrite loadLittleEndian32 by (rewrite Hcrc; apply compute_range).
  rewrite decide_True by done. by destruct c.
Qed.

(** C1. For every byte sequence of at most 10 MiB, [chunkData] returns
    chunks in index order, each with a payload of at most 493 bytes, the
    same total (at least 1) and the CRC32 of its own payload, so that each
    passes the CRC check of [fromBytes] on its wire form; a reassembler
    built for that total accepts all of them, in whatever order they
    arrive, and [reassemble] then returns exactly the original bytes. *)
Theorem chunk_reassemble_roundtrip (data : Data) :
  Z.of_nat (length data) ≤ 10 * 1024 * 1024 →
  ∃ chunks r,
    BLEProtocol.chunkData data = Some chunks
    ∧ 1 ≤ Z.of_nat (length chunks)
    ∧ BLEProtocol.index <$> chunks = seqZ 0 (Z.of_nat (length chunks))
    ∧ Forall (fun c =>
               BLEProtocol.total c = Z.of_nat (length chunks)
               ∧ Z.of_nat (length (BLEProtocol.data c)) ≤ BLEProtocol.maxChunkData
               ∧ BLEProtocol.crc32 c = CRC32.compute (BLEProtocol.data c)
               ∧ BLEProtocol.fromBytes (BLEProtocol.toBytes c) = success c)
             chunks
    ∧ BLEProtocol.init (Z.of_nat (length chunks)) = Some r
    ∧ ∀ arrival, arrival ≡ₚ chunks →
        ∃ r', addChunks r arrival = Some (success r')
              ∧ BLEProtocol.reassemble r' = success data.
Proof.
  intros Hlen. pose proof (chunkCount_bounds data) as (H1 & Hcover & Hmax).
  specialize (Hmax ltac:(lia)).
  set (n := BLEProtocol.chunkCount data) in *.
  assert (Hcount : Z.of_nat (length (chunkAt data <$> seqZ 0 n)) = n)
    by (rewrite length_fmap, length_seqZ; lia).
  assert (Hindex : BLEProtocol.index <$> (chunkAt data <$> seqZ 0 n)
                   = seqZ 0 n)
    by (rewrite <- list_fmap_compose; apply list_fmap_id).
  exists (chunkAt data <$> seqZ 0 n), (reassemblerWith data n []).
  rewrite Hcount. repeat split.
  - by apply chunkData_chunkAt.
  - done.
  - done.
  - apply Forall_fmap, Forall_seqZ. intros i Hi.
    cbn [compose chunkAt BLEProtocol.index BLEProtocol.total
         BLEProtocol.crc32 BLEProtocol.data].
    split; [done|]. split; [|split; [done|]].
    + unfold payloadAt, BLEProtocol.maxChunkData. rewrite length_take. lia.
    + apply fromBytes_toBytes;
        cbn [chunkAt BLEProtocol.index BLEProtocol.total BLEProtocol.crc32
             BLEProtocol.data]; change (2 ^ 16) with 65536;
        [lia|fold n; lia|done].
  - apply init_reassemblerWith. lia.
  - intros arrival Hperm.
    set (ks := BLEProtocol.index <$> arrival).
    assert (Hks : ks ≡ₚ seqZ 0 n) by (unfold ks; by rewrite Hperm, Hindex).
    assert (Harrival : arrival = chunkAt data <$> ks).
    { unfold ks. rewrite <- list_fmap_compose. symmetry.
      rewrite <- (list_fmap_id arrival) at 2.
      apply list_fmap_ext. intros j c Hc. cbn.
      assert (Hin : c ∈ chunkAt data <$> seqZ 0 n)
        by (rewrite <- Hperm; by eapply list_elem_of_lookup_2).
      by apply list_elem_of_fmap in Hin as (i & -> & _). }
    exists (reassemblerWith data n (reverse ks ++ [])). split.
    + rewrite Harrival. apply addChunks_any_order; try done.
      * rewrite app_nil_r, Hks. apply NoDup_seqZ.
      * rewrite Hks. apply Forall_seqZ. lia.
    + rewrite app_nil_r. apply reassemble_complete; [done| |].
      * rewrite length_reverse, Hks, length_seqZ. lia.
      * intros i Hi. rewrite elem_of_reverse, Hks. apply elem_of_seqZ. lia.
Qed.

Lemma chunk_reassemble_roundtrip_witness :
  let data := replicate 1000 "A"%byte in
  Z.of_nat (length data) ≤ 10 * 1024 * 1024
  ∧ ∃ chunks r,
      BLEProtocol.chunkData data = Some chunks
      ∧ 1 ≤ Z.of_nat (length chunks)
      ∧ BLEProtocol.index <$> chunks = seqZ 0 (Z.of_nat (length chunks))
      ∧ Forall (fun c =>
                 BLEProtocol.total c = Z.of_nat (length chunks)
                 ∧ Z.of_nat (length (BLEProtocol.data c))
                   ≤ BLEProtocol.maxChunkData
                 ∧ BLEProtocol.crc32 c = CRC32.compute (BLEProtocol.data c)
                 ∧ BLEProtocol.fromBytes (BLEProtocol.toBytes c) = success c)
               chunks
      ∧ BLEProtocol.init (Z.of_nat (length chunks)) = Some r
      ∧ ∀ arrival, arrival ≡ₚ chunks →
          ∃ r', addChunks r arrival = Some (success r')
                ∧ BLEProtocol.reassemble r' = success data.
Proof.
  intros data.
  assert (Hlen : Z.of_nat (length data) ≤ 10 * 1024 * 1024)
    by (vm_compute; discriminate).
  split; [exact Hlen|].
  exact (chunk_reassemble_roundtrip data Hlen).
Defined.




(** ** One-bit flips *)

Lemma bit_flipped_ne (b b' : byte) : bit_flipped b b' → b ≠ b'.
Proof.
  intros (j & Hj & Hb) <-.
  assert (H0 : Z.shiftl 1 j = 0).
  { apply (f_equal (Z.lxor (UInt8_toZ b))) in Hb.
    by rewrite <- Z.lxor_assoc, Z.lxor_nilpotent, Z.lxor_0_l in Hb. }
  rewrite Z.shiftl_1_l in H0.
  pose proof (Z.pow_pos_nonneg 2 j ltac:(lia) ltac:(lia)). lia.
Qed.

Lemma one_bit_flip_length (d d' : Data) :
  one_bit_flip d d' → length d' = length d.
Proof. intros [pre suf b b' _]. by rewrite !length_app. Qed.

Lemma one_bit_flip_ne (d d' : Data) : one_bit_flip d d' → d ≠ d'.
Proof.
  intros [pre suf b b' Hb] Heq. apply app_inv_head in Heq.
  injection Heq as ->. by apply (bit_flipped_ne _ _ Hb).
Qed.

(** A flipped bit of [c ++ t] is a flipped bit of [c] or one of [t]. *)
Lemma one_bit_flip_app (c t buf' : Data) :
  one_bit_flip (c ++ t) buf' →
  (∃ c', buf' = c' ++ t ∧ one_bit_flip c c')
  ∨ (∃ t', buf' = c ++ t' ∧ one_bit_flip t t').
Proof.
  intros Hflip. inversion Hflip as [pre suf b b' Hb Heq Hbuf]. clear Hflip.
  apply app_eq_app in Heq as [l [[-> ->]|[-> Heq]]].
  - right. exists (l ++ b' :: suf). rewrite <- app_assoc. split; [done|].
    by constructor.
  - destruct l as [|x l]; simpl in Heq.
    + right. exists (b' :: suf). rewrite app_nil_r. split; [done|].
      subst t. by apply (flip_at [] suf).
    + left. injection Heq as <- ->.
      exists (pre ++ b' :: l). rewrite <- app_assoc. split; [done|].
      by constructor.
Qed.

Lemma dropLast_app (c t : Data) (n : nat) :
  length t = n → CryptoService.dropLast n (c ++ t) = c.
Proof.
  intros Ht. unfold CryptoService.dropLast. rewrite length_app, Ht.
  replace (length c + n - n)%nat with (length c) by lia.
  by rewrite take_app_length.
Qed.

Lemma suffix_app (c t : Data) (n : nat) :
  length t = n → CryptoService.suffix n (c ++ t) = t.
Proof.
  intros Ht. unfold CryptoService.suffix. rewrite length_app, Ht.
  replace (length c + n - n)%nat with (length c) by lia.
  by rewrite drop_app_length.
Qed.

(** ** Encryption *)

Section Encryption.
Context `{CryptoKit} `{!AESGCMContract}.

Lemma encrypt_sealed (freshNonce plaintext key buf nonce : Data) :
  CryptoService.encrypt freshNonce plaintext key = success (buf, nonce) →
  ∃ sealed,
    AES_GCM_seal plaintext key freshNonce = success sealed
    ∧ buf = sb_ciphertext sealed ++ sb_tag sealed
    ∧ nonce = freshNonce.
Proof.
  unfold CryptoService.encrypt. cbn zeta.
  destruct (AES_GCM_seal plaintext key freshNonce) as [sealed|e];
    cbn [try_bind]; [|done].
  intros [= <- <-]. by exists sealed.
Qed.

Lemma decrypt_box (c t n key : Data) :
  length n = 12%nat → length t = 16%nat →
  CryptoService.decrypt (c ++ t) n key
  = AES_GCM_open (mkSealedBox n c t) key.
Proof.
  intros Hn Ht. unfold CryptoService.decrypt.
  rewrite Nonce_init_12 by done. cbn [try_bind].
  rewrite dropLast_app, suffix_app by done.
  rewrite SealedBox_init_16 by done. done.
Qed.

(** C2. For every key and plaintext, with a fresh 12-byte nonce: a 256-bit
    key encrypts; whenever [encrypt] returns, it returns the 12-byte nonce
    and one buffer that is the ciphertext followed by the 16-byte tag,
    [decrypt] of that buffer and nonce returns the plaintext, and [decrypt]
    fails as soon as one bit of the buffer (ciphertext or tag) or of the
    nonce is flipped. *)
Theorem encrypt_decrypt_roundtrip (key plaintext freshNonce : Data) :
  length freshNonce = 12%nat →
  (length key = 32%nat →
   ∃ buf, CryptoService.encrypt freshNonce plaintext key
          = success (buf, freshNonce))
  ∧ ∀ buf nonce,
      CryptoService.encrypt freshNonce plaintext key = success (buf, nonce) →
      length nonce = 12%nat
      ∧ (∃ sealed,
           AES_GCM_seal plaintext key freshNonce = success sealed
           ∧ buf = sb_ciphertext sealed ++ sb_tag sealed
           ∧ CryptoService.suffix 16 buf = sb_tag sealed
           ∧ length (sb_tag sealed) = 16%nat)
      ∧ CryptoService.decrypt buf nonce key = success plaintext
      ∧ (∀ buf', one_bit_flip buf buf' →
                 failed (CryptoService.decrypt buf' nonce key))
      ∧ (∀ nonce', one_bit_flip nonce nonce' →
                   failed (CryptoService.decrypt buf nonce' key)).
Proof.
  intros Hn. split.
  - intros Hkey.
    destruct (seal_key256 plaintext key freshNonce Hkey Hn) as [sb Hsb].
    exists (sb_ciphertext sb ++ sb_tag sb).
    unfold CryptoService.encrypt. cbn zeta. by rewrite Hsb.
  - intros buf nonce Henc.
    destruct (encrypt_sealed _ _ _ _ _ Henc) as (sb & Hseal & -> & ->).
    destruct (seal_shape _ _ _ _ Hseal) as [Hsn Htag].
    destruct sb as [n c t]. cbn [sb_nonce sb_ciphertext sb_tag] in *. subst n.
    split; [done|]. split.
    { eexists. split; [done|]. by rewrite suffix_app. }
    split.
    { rewrite decrypt_box by done. by eapply open_seal. }
    split.
    + intros buf' Hflip.
      apply one_bit_flip_app in Hflip as [(c' & -> & Hc)|(t' & -> & Ht)].
      * rewrite decrypt_box by done.
        eapply open_one_bit_flip; [done|].
        exact (flip_ciphertext (mkSealedBox freshNonce c t) c' Hc).
      * rewrite decrypt_box
          by (done || by rewrite (one_bit_flip_length _ _ Ht)).
        eapply open_one_bit_flip; [done|].
        exact (flip_tag (mkSealedBox freshNonce c t) t' Ht).
    + intros nonce' Hflip.
      rewrite decrypt_box
        by (done || by rewrite (one_bit_flip_length _ _ Hflip)).
      eapply open_one_bit_flip; [done|].
      exact (flip_nonce (mkSealedBox freshNonce c t) nonce' Hflip).
Qed.

End Encryption.

(** ** The executable platform meets the contracts *)

Lemma byteSum_app (d1 d2 : Data) :
  Toy.byteSum (d1 ++ d2) = Toy.byteSum d1 + Toy.byteSum d2.
Proof.
  unfold Toy.byteSum. induction d1 as [|b d1 IH]; simpl; [done|].
  rewrite IH. lia.
Qed.

Lemma byteSum_cons (b : byte) (d : Data) :
  Toy.byteSum (b :: d) = UInt8_toZ b + Toy.byteSum d.
Proof. reflexivity. Qed.

Lemma byteSum_flip (d d' : Data) (x y : Z) :
  one_bit_flip d d' →
  UInt8_ofZ (x + Toy.byteSum d + y) ≠ UInt8_ofZ (x + Toy.byteSum d' + y).
Proof.
  intros [pre suf b b' Hb] Heq.
  apply (f_equal UInt8_toZ) in Heq. rewrite !UInt8_toZ_ofZ in Heq.
  rewrite !byteSum_app, !byteSum_cons in Heq.
  pose proof (UInt8_toZ_range b). pose proof (UInt8_toZ_range b').
  assert (UInt8_toZ b ≠ UInt8_toZ b')
    by (intros Hz; by apply (bit_flipped_ne _ _ Hb), UInt8_toZ_inj).
  revert Heq. generalize (Toy.byteSum pre) (Toy.byteSum suf). intros p s Heq.
  Z.div_mod_to_equations. lia.
Qed.

Lemma Toy_AESGCM : @AESGCMContract Toy.cryptoKit.
Proof.
  split; cbn -[Toy.tag].
  - intros d Hd. by rewrite decide_True by lia.
  - intros n c t Ht. by rewrite decide_True.
  - intros plaintext key n Hkey _. rewrite decide_True by done. by eexists.
  - intros plaintext key n sb. case_decide; [|done]. intros [= <-].
    split; [done|]. apply length_replicate.
  - intros plaintext key n sb. case_decide; [|done]. intros [= <-].
    cbn -[Toy.tag]. by rewrite decide_True.
  - intros plaintext key n sb sb'. case_decide; [|done]. intros [= <-] Hflip.
    unfold failed.
    inversion Hflip as [n' Hn|c' Hc|t' Ht]; cbn -[Toy.tag] in *.
    + rewrite decide_False; [by eexists|].
      unfold Toy.tag. intros Heq. injection Heq as Heq.
      by apply (byteSum_flip _ _ (Toy.byteSum key) (Toy.byteSum plaintext) Hn).
    + rewrite decide_False; [by eexists|].
      unfold Toy.tag. intros Heq. injection Heq as Heq.
      rewrite <- (Z.add_0_r (_ + Toy.byteSum plaintext)) in Heq.
      rewrite <- (Z.add_0_r (_ + Toy.byteSum c')) in Heq.
      by apply (byteSum_flip _ _ (Toy.byteSum key + Toy.byteSum n) 0 Hc).
    + rewrite decide_False; [by eexists|].
      intros Heq. by apply (one_bit_flip_ne _ _ Ht).
Qed.

Lemma Toy_P256 : @P256Contract Toy.cryptoKit.
Proof.
  split; cbn.
  - intros pk. rewrite length_take, length_app. cbn [length]. lia.
  - intros d pk. by case_decide.
  - intros message key. rewrite length_take, !length_app. cbn [length]. lia.
Qed.

Lemma encrypt_decrypt_roundtrip_witness :
  let key := replicate 32 x01 in
  let nonce := replicate 12 x02 in
  ∃ buf,
    @CryptoService.encrypt Toy.cryptoKit nonce (utf8 "secret") key
    = success (buf, nonce)
    ∧ @CryptoService.decrypt Toy.cryptoKit buf nonce key
      = success (utf8 "secret").
Proof.
  intros key nonce.
  destruct (@encrypt_decrypt_roundtrip Toy.cryptoKit Toy_AESGCM
              key (utf8 "secret") nonce eq_refl) as [Henc Hrest].
  destruct (Henc eq_refl) as [buf Hbuf]. exists buf. split; [exact Hbuf|].
  destruct (Hrest buf nonce Hbuf) as (_ & _ & Hdec & _). exact Hdec.
Defined.

(** ** Argon2id parameters *)

(** C3. For every password and every salt, [hashPassword] and
    [deriveEncryptionKey] both make the Argon2id call of the specification
    (m = 19456 KiB, t = 2, p = 1, 32 bytes of output) on the password and
    their salt; the first returns the encoded (PHC) string of the result,
    the second its raw bytes as the key. *)
Theorem argon2id_same_parameters `{Argon2Swift}
    (password : string) (auth_salt encryption_salt : Data) :
  CryptoService.hashPassword password auth_salt
  = try_bind (hashPasswordBytes (spec_Argon2id password auth_salt))
             (fun result => success (encodedString result))
  ∧ CryptoService.deriveEncryptionKey password encryption_salt
    = try_bind (hashPasswordBytes (spec_Argon2id password encryption_salt))
               (fun result => success (hashData result))
  ∧ (a_memory (spec_Argon2id password auth_salt),
     a_iterations (spec_Argon2id password auth_salt),
     a_parallelism (spec_Argon2id password auth_salt),
     a_length (spec_Argon2id password auth_salt),
     a_type (spec_Argon2id password auth_salt))
    = (CryptoService.memoryCost, CryptoService.timeCost,
       CryptoService.parallelism, CryptoService.hashLength, Argon2_id).
Proof. done. Qed.

(** ** The record layer *)

Lemma insertStatement_users :
  insertStatement "users" User_codingKeys users_columns
  = failure (databaseError "table users has no column named passwordHash").
Proof. reflexivity. Qed.



Lemma decodeRecord_User :
  decodeRecord User_codingKeys users_columns
  = failure (libraryError "keyNotFound: passwordHash").
Proof. reflexivity. Qed.

Lemma decodeRecord_VaultEntry :
  decodeRecord VaultEntry_requiredKeys vault_entries_columns
  = failure (libraryError "keyNotFound: dataBlob").
Proof. reflexivity. Qed.

Lemma decodeRecord_Profile :
  decodeRecord Profile_requiredKeys profiles_columns
  = failure (libraryError "keyNotFound: createdAt").
Proof. reflexivity. Qed.

Lemma createUser_refused (db : DatabaseService.Database) (user : User) :
  DatabaseService.createUser db user
  = (db, failure (databaseError
                    "table users has no column named passwordHash")).
Proof.
  unfold DatabaseService.createUser. by rewrite insertStatement_users.
Qed.

Lemma getUser_outcome (db : DatabaseService.Database) (name : string) :
  DatabaseService.getUser db name
  = match DatabaseService.users db !! name with
    | None => success None
    | Some _ => failure (libraryError "keyNotFound: passwordHash")
    end.
Proof.
  unfold DatabaseService.getUser.
  destruct (DatabaseService.users db !! name); [|done].
  by rewrite decodeRecord_User.
Qed.



(** ** Login attempts *)

Section Login.
Context `{Argon2Swift} `{Foundation}.

Lemma login_failure_state (db : DatabaseService.Database)
    (self self' : AuthService.AuthService) (username password : string)
    (e : ThrownError) :
  AuthService.login db self username password = (self', failure e) →
  self' = self.
Proof.
  unfold AuthService.login. intros Hl.
  repeat (case_match; simplify_eq; try done).
Qed.

Lemma loginAttempts_failed (db : DatabaseService.Database)
    (self : AuthService.AuthService) (attempts : list (string * string)) :
  Forall failed (loginAttempts db self attempts).2 →
  (loginAttempts db self attempts).1 = self.
Proof.
  revert self. induction attempts as [|[u p] attempts IH]; intros self;
    simpl; [done|].
  destruct (AuthService.login db self u p) as [self1 r] eqn:Hlogin.
  destruct (loginAttempts db self1 attempts) as [self2 rs] eqn:Hrest.
  simpl. intros Hall. apply Forall_cons in Hall as [[e ->] Hall].
  apply login_failure_state in Hlogin as ->.
  specialize (IH self). rewrite Hrest in IH. by apply IH.
Qed.

(** C4, as the code has it.  [login] keeps no count of failed attempts and
    has no cooldown: after any number of consecutive failed attempts the
    service is in the state it started from, and the next attempt gets the
    answer it would have got as the first.  For a user name that has no
    row this answer is [invalidCredentials], on the sixth attempt as on
    the first. *)
Theorem login_has_no_attempt_limit (db : DatabaseService.Database)
    (self : AuthService.AuthService) (attempts : list (string * string))
    (username password : string) :
  Forall failed (loginAttempts db self attempts).2 →
  let self' := (loginAttempts db self attempts).1 in
  self' = self
  ∧ AuthService.login db self' username password
    = AuthService.login db self username password
  ∧ (DatabaseService.getUser db username = success None →
     AuthService.login db self' username password
     = (self, failure (authError invalidCredentials))).
Proof.
  intros Hfailed self'. unfold self'.
  rewrite (loginAttempts_failed _ _ _ Hfailed). split; [done|].
  split; [done|]. unfold AuthService.login. by intros ->.
Qed.

End Login.

(** C4, counterexample: five consecutive failed attempts for "alice", then
    a sixth.  It is not refused by a limiter: the user is looked up again
    and the answer is [invalidCredentials], the answer of the five attempts
    before it. *)
Lemma login_sixth_attempt_not_limited :
  let db := DatabaseService.mkDatabase ∅ [] in
  let wrong := replicate 5 ("alice", "wrong password") in
  let run :=
    @loginAttempts Toy.argon2 Toy.foundation db lockedService wrong in
  run.2 = replicate 5 (failure (authError invalidCredentials))
  ∧ @AuthService.login Toy.argon2 Toy.foundation db run.1 "alice"
      "wrong password"
    = (lockedService, failure (authError invalidCredentials)).
Proof. vm_compute. split; reflexivity. Qed.

Lemma login_has_no_attempt_limit_witness :
  let db := DatabaseService.mkDatabase ∅ [] in
  let wrong := replicate 5 ("alice", "wrong password") in
  let self' :=
    (@loginAttempts Toy.argon2 Toy.foundation db lockedService wrong).1 in
  @AuthService.login Toy.argon2 Toy.foundation db self' "alice" "wrong again"
  = (lockedService, failure (authError invalidCredentials)).
Proof.
  intros db wrong self'.
  assert (Hfailed :
    Forall failed
      (@loginAttempts Toy.argon2 Toy.foundation db lockedService wrong).2).
  { vm_compute. repeat constructor; by eexists. }
  destruct (@login_has_no_attempt_limit Toy.argon2
              Toy.foundation db lockedService wrong
              "alice" "wrong again" Hfailed) as (_ & _ & Hbad).
  apply Hbad. reflexivity.
Defined.

(** ** Registration *)

Section Registration.
Context `{Argon2Swift} `{Foundation}.


End Registration.


(** ** Pairing *)

Section Pairing.
Context `{CryptoKit} `{!P256Contract}.

(** When the peer key parses, the value written to the Pairing
    characteristic is the central's own key in compressed form, 33 bytes,
    followed by the 32-byte pairing HMAC of these 33 bytes under the code. *)
Lemma submitPairingCode_payload (freshKey : P256_PrivateKey)
    (self : SyncOrchestrator.SyncOrchestrator) (code : string)
    (peerData : Data) (peerKey : P256_PublicKey) :
  SyncOrchestrator.peerPublicKey (SyncOrchestrator.bleManager self)
  = Some peerData →
  PublicKey_compactRepresentation peerData = success peerKey →
  SyncOrchestrator.pairingCharacteristic (SyncOrchestrator.bleManager self)
  = true →
  SyncOrchestrator.connectedPeripheral (SyncOrchestrator.bleManager self)
  = true →
  let own := compressedRepresentation (publicKey freshKey) in
  SyncOrchestrator.pairingWrites
    (SyncOrchestrator.bleManager
       (SyncOrchestrator.submitPairingCode freshKey self code))
  = SyncOrchestrator.pairingWrites (SyncOrchestrator.bleManager self)
      ++ [own ++ CryptoService.computePairingHMAC code own]
  ∧ length own = 33%nat
  ∧ length (CryptoService.computePairingHMAC code own) = 32%nat.
Proof.
  intros Hpeer Hparse Hchar Hconn own.
  unfold SyncOrchestrator.submitPairingCode. rewrite Hpeer, Hparse.
  cbn zeta. unfold SyncOrchestrator.writePairingData.
  rewrite Hchar, Hconn. cbn [andb].
  split; [|split].
  - by destruct (CryptoService.deriveSessionKey freshKey peerKey).
  - apply compressedRepresentation_length.
  - apply HMAC_SHA256_length.
Qed.

(** C6, the code at a 33-byte peer key: the key read from the Pairing
    characteristic goes to [PublicKey(compactRepresentation:)], which takes
    32-byte keys only; pairing ends in the error state, nothing is written
    to the peripheral and no session key is set. *)
Theorem submitPairingCode_rejects_compressed_peer_key
    (freshKey : P256_PrivateKey) (self : SyncOrchestrator.SyncOrchestrator)
    (code : string) (peerData : Data) :
  SyncOrchestrator.peerPublicKey (SyncOrchestrator.bleManager self)
  = Some peerData →
  length peerData = 33%nat →
  ∃ message,
    SyncOrchestrator.submitPairingCode freshKey self code
    = SyncOrchestrator.mkSyncOrchestrator (SyncOrchestrator.error message)
        (SyncOrchestrator.sessionKey self) (SyncOrchestrator.bleManager self).
Proof.
  intros Hpeer Hlen. unfold SyncOrchestrator.submitPairingCode.
  rewrite Hpeer.
  destruct (PublicKey_compactRepresentation peerData) as [pk|e] eqn:Hparse.
  - apply compactRepresentation_length in Hparse. lia.
  - by eexists.
Qed.

End Pairing.

Lemma submitPairingCode_rejects_compressed_peer_key_witness :
  @SyncOrchestrator.submitPairingCode Toy.cryptoKit (replicate 32 x05)
    pairingOrchestrator "123456"
  = SyncOrchestrator.mkSyncOrchestrator
      (SyncOrchestrator.error "Pairing failed: incorrectParameterSize")
      None (SyncOrchestrator.bleManager pairingOrchestrator).
Proof.
  destruct (@submitPairingCode_rejects_compressed_peer_key Toy.cryptoKit
              Toy_P256 (replicate 32 x05) pairingOrchestrator "123456"
              compressedPeerKey eq_refl eq_refl) as [message Hrun].
  rewrite Hrun. vm_compute in Hrun. injection Hrun as <-. reflexivity.
Defined.

(** ** Soft delete and versions *)

Section Versions.
Context `{CryptoKit} `{Foundation}.




End Versions.


(** ** Listing *)

Section Listing.
Context `{CryptoKit} `{Foundation}.

Lemma displayEntry_None (key : Data) (e : VaultEntry) :
  VaultListView.displayEntry key e = None
  ↔ nonce e ≠ [] ∧ failed (CryptoService.decrypt (dataBlob e) (nonce e) key).
Proof.
  unfold VaultListView.displayEntry, failed. case_decide as Hn.
  - split; [done|]. by intros [? _].
  - destruct (CryptoService.decrypt (dataBlob e) (nonce e) key) as [p|err];
      cbn [try_opt].
    + split; [done|]. by intros [_ [? ?]].
    + split; [|done]. intros _. split; [done|]. by eexists.
Qed.




End Listing.




(** * Properties of the further code *)

(** ** The wire form, both ways *)

Lemma UInt8_ofZ_low_bits (z1 z2 : Z) :
  (∀ i, 0 ≤ i < 8 → Z.testbit z1 i = Z.testbit z2 i) →
  UInt8_ofZ z1 = UInt8_ofZ z2.
Proof.
  intros Hbits. apply UInt8_toZ_inj. rewrite !UInt8_toZ_ofZ.
  change 256 with (2 ^ 8). apply Z.bits_inj'. intros i Hi.
  destruct (decide (i < 8)).
  - rewrite !Z.mod_pow2_bits_low by lia. apply Hbits. lia.
  - by rewrite !Z.mod_pow2_bits_high by lia.
Qed.

Lemma UInt8_ofZ_load_head (b : byte) (bs : Data) :
  UInt8_ofZ (loadLittleEndian (b :: bs)) = b.
Proof.
  rewrite <- (UInt8_ofZ_toZ b) at 2. apply UInt8_ofZ_low_bits. intros i Hi.
  rewrite loadLittleEndian_testbit by lia. by rewrite decide_True by lia.
Qed.

Lemma UInt8_ofZ_load_shift (b : byte) (bs : Data) (k : Z) :
  8 ≤ k →
  UInt8_ofZ (Z.shiftr (loadLittleEndian (b :: bs)) k)
  = UInt8_ofZ (Z.shiftr (loadLittleEndian bs) (k - 8)).
Proof.
  intros Hk. apply UInt8_ofZ_low_bits. intros i Hi.
  rewrite !Z.shiftr_spec by lia.
  rewrite loadLittleEndian_testbit by lia. rewrite decide_False by lia.
  f_equal. lia.
Qed.

Lemma littleEndian16_load (b0 b1 : byte) :
  littleEndian16 (loadLittleEndian [b0; b1]) = [b0; b1].
Proof.
  unfold littleEndian16. rewrite UInt8_ofZ_load_head.
  rewrite (UInt8_ofZ_load_shift b0 [b1] 8) by lia. change (8 - 8) with 0.
  by rewrite Z.shiftr_0_r, UInt8_ofZ_load_head.
Qed.

Lemma littleEndian32_load (b0 b1 b2 b3 : byte) :
  littleEndian32 (loadLittleEndian [b0; b1; b2; b3]) = [b0; b1; b2; b3].
Proof.
  unfold littleEndian32. rewrite UInt8_ofZ_load_head.
  rewrite (UInt8_ofZ_load_shift b0 [b1; b2; b3] 8) by lia.
  rewrite (UInt8_ofZ_load_shift b0 [b1; b2; b3] 16) by lia.
  rewrite (UInt8_ofZ_load_shift b0 [b1; b2; b3] 24) by lia.
  change (8 - 8) with 0. change (16 - 8) with 8. change (24 - 8) with 16.
  rewrite (UInt8_ofZ_load_shift b1 [b2; b3] 8) by lia.
  rewrite (UInt8_ofZ_load_shift b1 [b2; b3] 16) by lia.
  change (8 - 8) with 0. change (16 - 8) with 8.
  rewrite (UInt8_ofZ_load_shift b2 [b3] 8) by lia. change (8 - 8) with 0.
  by rewrite !Z.shiftr_0_r, !UInt8_ofZ_load_head.
Qed.

Lemma loadLittleEndian_range (bs : Data) :
  0 ≤ loadLittleEndian bs < 2 ^ (8 * Z.of_nat (length bs)).
Proof.
  induction bs as [|b bs IH]; [simpl; lia|].
  pose proof (UInt8_toZ_range b) as Hb.
  assert (H0 : 0 ≤ loadLittleEndian (b :: bs)).
  { simpl. apply Z.lor_nonneg. split; [lia|]. apply Z.shiftl_nonneg. lia. }
  split; [done|].
  destruct (decide (loadLittleEndian (b :: bs) = 0)) as [->|Hne].
  { apply Z.pow_pos_nonneg; lia. }
  apply Z.log2_lt_pow2; [lia|].
  assert (Hhigh : ∀ i, 8 * Z.of_nat (length (b :: bs)) ≤ i →
                       Z.testbit (loadLittleEndian (b :: bs)) i = false).
  { intros i Hi. rewrite loadLittleEndian_testbit by lia.
    rewrite decide_False by (cbn [length] in Hi; lia).
    apply (testbit_small _ (8 * Z.of_nat (length bs))); [done|].
    cbn [length] in Hi. lia. }
  destruct (decide (Z.log2 (loadLittleEndian (b :: bs))
                    < 8 * Z.of_nat (length (b :: bs)))) as [|Hge]; [done|].
  pose proof (Z.bit_log2 (loadLittleEndian (b :: bs)) ltac:(lia)) as Hbit.
  rewrite Hhigh in Hbit by lia. done.
Qed.

(** X1. The wire form round-trips both ways.  [fromBytes] accepts exactly
    the buffers of at least 8 bytes whose bytes 4..7 are the CRC32 of the
    bytes after them; the chunk it returns has a 16-bit index and total,
    the CRC32 of its payload, and [toBytes] of it is the buffer again; and
    every such chunk is what [fromBytes] returns for its [toBytes]. *)
Theorem wire_round_trip :
  (∀ (bytes : Data) (c : BLEProtocol.Chunk),
     BLEProtocol.fromBytes bytes = success c →
     BLEProtocol.toBytes c = bytes
     ∧ 0 ≤ BLEProtocol.index c < 65536
     ∧ 0 ≤ BLEProtocol.total c < 65536
     ∧ BLEProtocol.crc32 c = CRC32.compute (BLEProtocol.data c))
  ∧ (∀ bytes : Data,
       (∃ c, BLEProtocol.fromBytes bytes = success c)
       ↔ 8 ≤ Z.of_nat (length bytes)
         ∧ loadLittleEndian (subdata bytes 4 8)
           = CRC32.compute (subdata bytes 8 (Z.of_nat (length bytes))))
  ∧ (∀ c : BLEProtocol.Chunk,
       0 ≤ BLEProtocol.index c < 65536 →
       0 ≤ BLEProtocol.total c < 65536 →
       BLEProtocol.crc32 c = CRC32.compute (BLEProtocol.data c) →
       BLEProtocol.fromBytes (BLEProtocol.toBytes c) = success c).
Proof.
  split; [|split].
  - intros bytes c. unfold BLEProtocol.fromBytes.
    case_decide as Hlen; [done|]. case_decide as Hcrc; [|done].
    intros [= <-].
    destruct bytes as [|b0 [|b1 [|b2 [|b3 [|b4 [|b5 [|b6 [|b7 rest]]]]]]]];
      try (cbn [length] in Hlen; lia).
    assert (Hrest : subdata (b0 :: b1 :: b2 :: b3 :: b4 :: b5 :: b6 :: b7 :: rest)
                      8 (Z.of_nat (length
                        (b0 :: b1 :: b2 :: b3 :: b4 :: b5 :: b6 :: b7 :: rest)))
                    = rest).
    { unfold subdata. change (Z.to_nat 8) with 8%nat. cbn [drop].
      apply take_ge. cbn [length]. lia. }
    rewrite Hrest in *.
    change (subdata (b0 :: b1 :: b2 :: b3 :: b4 :: b5 :: b6 :: b7 :: rest) 0 2)
      with [b0; b1].
    change (subdata (b0 :: b1 :: b2 :: b3 :: b4 :: b5 :: b6 :: b7 :: rest) 2 4)
      with [b2; b3].
    change (subdata (b0 :: b1 :: b2 :: b3 :: b4 :: b5 :: b6 :: b7 :: rest) 4 8)
      with [b4; b5; b6; b7] in *.
    unfold BLEProtocol.toBytes.
    cbn [BLEProtocol.index BLEProtocol.total BLEProtocol.crc32
         BLEProtocol.data].
    rewrite !littleEndian16_load, littleEndian32_load.
    split; [done|].
    pose proof (loadLittleEndian_range [b0; b1]) as H01.
    pose proof (loadLittleEndian_range [b2; b3]) as H23.
    change (2 ^ (8 * Z.of_nat (length [b0; b1]))) with 65536 in H01.
    change (2 ^ (8 * Z.of_nat (length [b2; b3]))) with 65536 in H23.
    by rewrite Hcrc.
  - intros bytes. unfold BLEProtocol.fromBytes. split.
    + intros [c Hc]. case_decide; [done|]. case_decide; [|done].
      split; [lia|done].
    + intros [Hlen Hcrc]. rewrite decide_False by lia.
      rewrite decide_True by done. by eexists.
  - intros c Hi Ht Hc. by apply fromBytes_toBytes.
Qed.

(** ** The shape of a chunked message *)

Lemma chunkCount_limit (d : Data) :
  BLEProtocol.chunkCount d ≤ 65535 ↔ Z.of_nat (length d) ≤ 65535 * 493.
Proof.
  unfold BLEProtocol.chunkCount, BLEProtocol.maxChunkData.
  set (len := Z.of_nat (length d)).
  assert (Hlen : 0 ≤ len) by (unfold len; lia).
  pose proof (Z.div_mod (len + 493 - 1) 493 ltac:(lia)) as Hdm.
  pose proof (Z.mod_pos_bound (len + 493 - 1) 493 ltac:(lia)) as Hmod.
  lia.
Qed.

Lemma payloadAt_length (d : Data) (i : Z) :
  0 ≤ i < BLEProtocol.chunkCount d →
  Z.of_nat (length (payloadAt d i))
  = if decide (i + 1 < BLEProtocol.chunkCount d) then 493
    else Z.of_nat (length d) - 493 * i.
Proof.
  intros Hi. pose proof (chunkCount_bounds d) as (_ & Hcover & _).
  unfold payloadAt. rewrite length_take, length_drop.
  revert Hi Hcover. unfold BLEProtocol.chunkCount, BLEProtocol.maxChunkData.
  set (len := Z.of_nat (length d)).
  assert (Hlen : len = Z.of_nat (length d)) by done. clearbody len.
  pose proof (Z.div_mod (len + 493 - 1) 493 ltac:(lia)) as Hdm.
  pose proof (Z.mod_pos_bound (len + 493 - 1) 493 ltac:(lia)) as Hmod.
  intros Hi Hcover. case_decide; lia.
Qed.

(** X2. [chunkData] traps exactly when the data would need more than 65535
    chunks, that is for more than 65535 * 493 = 32308755 bytes.  Otherwise
    it returns max(1, ceil(len / 493)) chunks (one empty chunk for empty
    data), numbered from 0; every chunk but the last carries exactly 493
    bytes, the last carries the rest, and the payloads put together are the
    data. *)
Theorem chunkData_shape (data : Data) :
  (BLEProtocol.chunkData data = None
   ↔ 65535 * 493 < Z.of_nat (length data))
  ∧ ∀ chunks,
      BLEProtocol.chunkData data = Some chunks →
      Z.of_nat (length chunks)
      = Z.max 1 ((Z.of_nat (length data) + 492) / 493)
      ∧ concat (BLEProtocol.data <$> chunks) = data
      ∧ ∀ (i : nat) c,
          chunks !! i = Some c →
          BLEProtocol.index c = Z.of_nat i
          ∧ Z.of_nat (length (BLEProtocol.data c))
            = if decide (Z.of_nat i + 1 < Z.of_nat (length chunks)) then 493
              else Z.of_nat (length data) - 493 * Z.of_nat i.
Proof.
  pose proof (chunkCount_limit data) as Hlimit.
  pose proof (chunkCount_bounds data) as (H1 & Hcover & _).
  destruct (decide (BLEProtocol.chunkCount data ≤ 65535)) as [Hle|Hgt].
  - rewrite chunkData_chunkAt by done. split.
    + split; [done|]. intros Hlen. apply Hlimit in Hle. lia.
    + intros chunks [= <-].
      assert (Hcount : Z.of_nat (length (chunkAt data
                         <$> seqZ 0 (BLEProtocol.chunkCount data)))
                       = BLEProtocol.chunkCount data)
        by (rewrite length_fmap, length_seqZ; lia).
      rewrite Hcount. split.
      { unfold BLEProtocol.chunkCount, BLEProtocol.maxChunkData.
        do 2 f_equal. lia. }
      split.
      * rewrite <- list_fmap_compose.
        rewrite (list_fmap_ext _ (payloadAt data)
                   (seqZ 0 (BLEProtocol.chunkCount data))) by done.
        by apply concat_payloadAt.
      * intros i c Hc. rewrite list_lookup_fmap in Hc.
        destruct (seqZ 0 (BLEProtocol.chunkCount data) !! i) as [j|] eqn:Hj;
          [|done].
        apply lookup_seqZ in Hj as [-> Hj]. injection Hc as <-.
        cbn [chunkAt BLEProtocol.index BLEProtocol.data].
        split; [lia|]. rewrite payloadAt_length by lia.
        replace (0 + Z.of_nat i) with (Z.of_nat i) by lia. done.
  - assert (Hnone : BLEProtocol.chunkData data = None).
    { unfold BLEProtocol.chunkData, UInt16_init.
      by rewrite decide_False by lia. }
    rewrite Hnone. split; [|done]. split; [|done].
    intros _. destruct (decide (65535 * 493 < Z.of_nat (length data)));
      [done|]. exfalso. apply Hgt, Hlimit. lia.
Qed.

(** ** The states of a reassembler *)

Lemma filled_insert_length (l : list (option Data)) (i : nat)
    (slot : option Data) (d : Data) :
  l !! i = Some slot →
  length (filter is_Some (<[i := Some d]> l))
  = (if slot is None then S (length (filter is_Some l))
     else length (filter is_Some l)).
Proof.
  revert i. induction l as [|x l IH]; intros i Hi; [done|].
  destruct i as [|i]; simpl in Hi |- *.
  - injection Hi as ->. rewrite !filter_cons.
    destruct slot as [p|]; repeat case_decide; try done;
      match goal with
      | H : ¬ is_Some (Some _) |- _ => destruct H; by eexists
      | H : is_Some None |- _ => by destruct H
      end.
  - rewrite !filter_cons. specialize (IH i Hi).
    case_decide; rewrite ?length_cons, IH; by destruct slot.
Qed.

Lemma filled_length_le (l : list (option Data)) :
  (length (filter is_Some l) ≤ length l)%nat.
Proof. apply length_filter. Qed.

Lemma filledSlots_Some (l : list (option Data)) (ps : list Data) :
  mapM (fun slot => slot) l = Some ps ↔ l = Some <$> ps.
Proof.
  revert ps. induction l as [|x l IH]; intros ps.
  - split; [intros [= <-]; done|]. by destruct ps.
  - cbn [mapM]. destruct x as [p|]; cbn [mbind option_bind].
    + destruct (mapM (fun slot => slot) l) as [ps'|] eqn:Hm;
        cbn [fmap option_fmap option_map mret option_ret mbind option_bind].
      * split.
        -- intros [= <-]. cbn. f_equal. by apply IH.
        -- destruct ps as [|q ps]; [done|]. intros [= -> Hl].
           apply IH in Hl. by simplify_eq.
      * split; [done|]. destruct ps as [|q ps]; [done|]. intros [= -> Hl].
        apply IH in Hl. congruence.
    + split; [done|]. by destruct ps.
Qed.

Lemma filled_all_iff (l : list (option Data)) :
  is_Some (mapM (fun slot => slot) l)
  ↔ length (filter is_Some l) = length l.
Proof.
  induction l as [|x l IH]; [split; [done|by eexists]|].
  rewrite filter_cons. pose proof (filled_length_le l) as Hle.
  destruct x as [p|].
  - rewrite decide_True by (by eexists). cbn [length]. split.
    + intros [ps Hps]. apply filledSlots_Some in Hps.
      destruct ps as [|q ps]; [done|]. injection Hps as _ Hl.
      f_equal. apply IH. exists ps. by apply filledSlots_Some.
    + intros [= Hlen]. apply IH in Hlen as [ps Hps].
      apply filledSlots_Some in Hps. exists (p :: ps).
      apply filledSlots_Some. by rewrite Hps.
  - rewrite decide_False by (by intros [? ?]). cbn [length]. split.
    + intros [ps Hps]. apply filledSlots_Some in Hps. by destruct ps.
    + lia.
Qed.

Lemma addChunk_success (r r' : BLEProtocol.ChunkReassembler)
    (c : BLEProtocol.Chunk) (b : bool) :
  BLEProtocol.addChunk r c = Some (r', success b) →
  0 ≤ BLEProtocol.r_total r ≤ 65535
  ∧ BLEProtocol.total c = BLEProtocol.r_total r
  ∧ BLEProtocol.index c < BLEProtocol.r_total r
  ∧ ∃ slot,
      BLEProtocol.r_chunks r !! Z.to_nat (BLEProtocol.index c) = Some slot
      ∧ r' = BLEProtocol.mkReassembler (BLEProtocol.r_total r)
               (<[Z.to_nat (BLEProtocol.index c) := Some (BLEProtocol.data c)]>
                  (BLEProtocol.r_chunks r))
               (if slot is None then BLEProtocol.receivedCount r + 1
                else BLEProtocol.receivedCount r)
      ∧ b = bool_decide
              ((if slot is None then BLEProtocol.receivedCount r + 1
                else BLEProtocol.receivedCount r)
               = BLEProtocol.r_total r).
Proof.
  unfold BLEProtocol.addChunk, UInt16_init.
  destruct (decide (0 ≤ BLEProtocol.r_total r ≤ 65535)) as [Hr|Hr];
    simpl; [|done].
  destruct (decide (BLEProtocol.total c ≠ BLEProtocol.r_total r))
    as [Ht|Ht]; [done|].
  destruct (decide (¬ BLEProtocol.index c < BLEProtocol.r_total r))
    as [Hi|Hi]; [done|].
  destruct (BLEProtocol.r_chunks r !! Z.to_nat (BLEProtocol.index c))
    as [slot|] eqn:Hslot; simpl; [|done].
  intros [= <- <-].
  split; [done|]. split; [by apply dec_stable|].
  split; [by apply dec_stable|]. by exists slot.
Qed.

Lemma addChunk_failure (r r' : BLEProtocol.ChunkReassembler)
    (c : BLEProtocol.Chunk) (msg : string) :
  BLEProtocol.addChunk r c = Some (r', failure msg) → r' = r.
Proof.
  unfold BLEProtocol.addChunk.
  destruct (UInt16_init (BLEProtocol.r_total r)); simpl; [|done].
  repeat case_decide; try (by intros [= <-]).
  destruct (BLEProtocol.r_chunks r !! Z.to_nat (BLEProtocol.index c)); done.
Qed.

Lemma reachable_slots (n : Z) (r : BLEProtocol.ChunkReassembler) :
  reachable n r →
  0 ≤ n
  ∧ BLEProtocol.r_total r = n
  ∧ Z.of_nat (length (BLEProtocol.r_chunks r)) = n
  ∧ BLEProtocol.receivedCount r
    = Z.of_nat (length (filter is_Some (BLEProtocol.r_chunks r)))
  ∧ 0 ≤ BLEProtocol.receivedCount r ≤ n.
Proof.
  induction 1 as [r Hinit|r c r' res _ IH Hadd].
  - unfold BLEProtocol.init in Hinit. case_decide; [|done].
    injection Hinit as <-.
    cbn [BLEProtocol.r_total BLEProtocol.r_chunks BLEProtocol.receivedCount].
    rewrite length_replicate.
    assert (Hnone : filter is_Some (replicate (Z.to_nat n) (None : option Data))
                    = []).
    { induction (Z.to_nat n) as [|k IHk]; [done|]. cbn [replicate].
      rewrite filter_cons. by rewrite decide_False by (by intros [? ?]). }
    rewrite Hnone. cbn [length]. lia.
  - destruct IH as (Hn & Htotal & Hlen & Hcount & Hrange).
    destruct res as [b|msg].
    + apply addChunk_success in Hadd
        as (_ & _ & _ & slot & Hslot & -> & _).
      cbn [BLEProtocol.r_total BLEProtocol.r_chunks BLEProtocol.receivedCount].
      rewrite length_insert, (filled_insert_length _ _ slot) by done.
      pose proof (filled_length_le
        (<[Z.to_nat (BLEProtocol.index c) := Some (BLEProtocol.data c)]>
           (BLEProtocol.r_chunks r))) as Hle.
      rewrite length_insert, (filled_insert_length _ _ slot) in Hle by done.
      destruct slot; lia.
    + by apply addChunk_failure in Hadd as ->.
Qed.

(** X3. A reassembler reached from [init] by any sequence of [addChunk]
    calls keeps its total, has exactly that many slots, and its
    [receivedCount] is the number of filled slots, between 0 and the
    total. *)
Theorem reassembler_invariant (n : Z) (r : BLEProtocol.ChunkReassembler) :
  reachable n r →
  0 ≤ n
  ∧ BLEProtocol.r_total r = n
  ∧ Z.of_nat (length (BLEProtocol.r_chunks r)) = n
  ∧ BLEProtocol.receivedCount r
    = Z.of_nat (length (filter is_Some (BLEProtocol.r_chunks r)))
  ∧ 0 ≤ BLEProtocol.receivedCount r ≤ n.
Proof. apply reachable_slots. Qed.

(** X4. On a reassembler reached from [init] by [addChunk] calls,
    [reassemble] returns the payloads of the slots, in index order,
    exactly when every slot is filled; otherwise it answers
    "Incomplete: received/total" ("Missing chunk" cannot occur).
    And [addChunk] answers [true] exactly when the slots are all filled
    after its insertion. *)
Theorem reassemble_exactly_when_complete (n : Z)
    (r : BLEProtocol.ChunkReassembler) :
  reachable n r →
  match filledSlots r with
  | Some payloads =>
      BLEProtocol.receivedCount r = n
      ∧ BLEProtocol.reassemble r = success (concat payloads)
  | None =>
      BLEProtocol.receivedCount r < n
      ∧ BLEProtocol.reassemble r
        = failure ("Incomplete: " +:+ pretty (BLEProtocol.receivedCount r)
                     +:+ "/" +:+ pretty n)
  end
  ∧ ∀ c r' done_,
      BLEProtocol.addChunk r c = Some (r', success done_) →
      (done_ = true ↔ is_Some (filledSlots r')).
Proof.
  intros Hreach.
  assert (Hstate : ∀ r0, reachable n r0 →
    (is_Some (filledSlots r0)
     ↔ BLEProtocol.receivedCount r0 = BLEProtocol.r_total r0)).
  { intros r0 Hr0.
    destruct (reachable_slots n r0 Hr0) as (_ & Ht & Hl & Hc & _).
    unfold filledSlots. rewrite filled_all_iff. lia. }
  split.
  - destruct (reachable_slots n r Hreach)
      as (_ & Htotal & Hlen & Hcount & Hrange).
    specialize (Hstate r Hreach). unfold BLEProtocol.reassemble.
    destruct (filledSlots r) as [payloads|] eqn:Hfilled.
    + assert (Hc : BLEProtocol.receivedCount r = BLEProtocol.r_total r)
        by (apply Hstate; by eexists).
      split; [lia|]. rewrite decide_False by (intros Hne; by apply Hne).
      apply filledSlots_Some in Hfilled. rewrite Hfilled.
      by rewrite reassemble_loop_filled.
    + assert (Hc : BLEProtocol.receivedCount r ≠ BLEProtocol.r_total r).
      { intros Hc. apply Hstate in Hc as [? ?]. done. }
      split; [lia|]. rewrite decide_True by done. by rewrite Htotal.
  - intros c r' done_ Hadd.
    assert (Hreach' : reachable n r') by (by eapply reachable_addChunk).
    rewrite (Hstate r' Hreach').
    apply addChunk_success in Hadd as (_ & _ & _ & slot & _ & -> & ->).
    cbn [BLEProtocol.receivedCount BLEProtocol.r_total].
    by rewrite bool_decide_eq_true.
Qed.

(** X5. What [addChunk] does with a chunk (index a [UInt16]) on a
    reassembler reached from [init] by [addChunk] calls.  For a total
    above 65535 it traps on [UInt16(total)], whatever the chunk.  Otherwise it never traps: a chunk with another
    total, or with an index that is not below the total, is refused and the
    reassembler stays as it is; any other chunk is stored in the slot of
    its index and no other slot changes. *)
Theorem addChunk_outcomes (n : Z) (r : BLEProtocol.ChunkReassembler)
    (c : BLEProtocol.Chunk) :
  reachable n r → 0 ≤ BLEProtocol.index c →
  (65535 < n → BLEProtocol.addChunk r c = None)
  ∧ (n ≤ 65535 → BLEProtocol.total c ≠ n →
     BLEProtocol.addChunk r c = Some (r, failure "Total mismatch"))
  ∧ (n ≤ 65535 → BLEProtocol.total c = n → n ≤ BLEProtocol.index c →
     BLEProtocol.addChunk r c = Some (r, failure "Index out of range"))
  ∧ (n ≤ 65535 → BLEProtocol.total c = n → BLEProtocol.index c < n →
     ∃ r' done_,
       BLEProtocol.addChunk r c = Some (r', success done_)
       ∧ BLEProtocol.r_chunks r' !! Z.to_nat (BLEProtocol.index c)
         = Some (Some (BLEProtocol.data c))
       ∧ ∀ j, j ≠ Z.to_nat (BLEProtocol.index c) →
              BLEProtocol.r_chunks r' !! j = BLEProtocol.r_chunks r !! j).
Proof.
  intros Hreach Hindex.
  destruct (reachable_slots n r Hreach) as (Hn & Htotal & Hlen & _).
  unfold BLEProtocol.addChunk, UInt16_init. rewrite Htotal.
  split; [|split; [|split]].
  - intros Hbig. by rewrite (decide_False (P := 0 ≤ n ≤ 65535)) by lia.
  - intros Hsmall Hne. rewrite (decide_True (P := 0 ≤ n ≤ 65535)) by lia.
    simpl. by rewrite (decide_True (P := BLEProtocol.total c ≠ n)).
  - intros Hsmall Heq Hge.
    rewrite (decide_True (P := 0 ≤ n ≤ 65535)) by lia. simpl.
    rewrite (decide_False (P := BLEProtocol.total c ≠ n))
      by (intros Hne; by apply Hne).
    by rewrite (decide_True (P := ¬ BLEProtocol.index c < n)) by lia.
  - intros Hsmall Heq Hlt.
    rewrite (decide_True (P := 0 ≤ n ≤ 65535)) by lia. simpl.
    rewrite (decide_False (P := BLEProtocol.total c ≠ n))
      by (intros Hne; by apply Hne).
    rewrite (decide_False (P := ¬ BLEProtocol.index c < n)) by lia.
    destruct (lookup_lt_is_Some_2 (BLEProtocol.r_chunks r)
                (Z.to_nat (BLEProtocol.index c)) ltac:(lia)) as [slot Hslot].
    rewrite Hslot. simpl. eexists _, _.
    split; [done|]. cbn [BLEProtocol.r_chunks]. split.
    + apply list_lookup_insert_eq. lia.
    + intros j Hj. by apply list_lookup_insert_ne.
Qed.

(** X6. Chunks for an index that is already filled do not count twice: once
    [addChunk] has accepted a chunk, another chunk with the same index and
    total is accepted with the same answer, leaves [receivedCount] as it is
    and puts its own payload in the slot; the same chunk again leaves the
    reassembler exactly as it is. *)
Theorem addChunk_again (r r1 : BLEProtocol.ChunkReassembler)
    (c c' : BLEProtocol.Chunk) (done_ : bool) :
  BLEProtocol.addChunk r c = Some (r1, success done_) →
  BLEProtocol.index c' = BLEProtocol.index c →
  BLEProtocol.total c' = BLEProtocol.total c →
  BLEProtocol.addChunk r1 c'
  = Some (BLEProtocol.mkReassembler (BLEProtocol.r_total r1)
            (<[Z.to_nat (BLEProtocol.index c) := Some (BLEProtocol.data c')]>
               (BLEProtocol.r_chunks r1))
            (BLEProtocol.receivedCount r1),
          success done_)
  ∧ BLEProtocol.addChunk r1 c = Some (r1, success done_).
Proof.
  intros Hadd Hindex Htotal.
  apply addChunk_success in Hadd
    as (Hr & Ht & Hi & slot & Hslot & -> & ->).
  assert (Hfilled :
    <[Z.to_nat (BLEProtocol.index c) := Some (BLEProtocol.data c)]>
      (BLEProtocol.r_chunks r) !! Z.to_nat (BLEProtocol.index c)
    = Some (Some (BLEProtocol.data c))).
  { apply list_lookup_insert_eq. by eapply lookup_lt_Some. }
  assert (Hgen : ∀ c0,
    BLEProtocol.index c0 = BLEProtocol.index c →
    BLEProtocol.total c0 = BLEProtocol.total c →
    BLEProtocol.addChunk
      (BLEProtocol.mkReassembler (BLEProtocol.r_total r)
         (<[Z.to_nat (BLEProtocol.index c) := Some (BLEProtocol.data c)]>
            (BLEProtocol.r_chunks r))
         (if slot is None then BLEProtocol.receivedCount r + 1
          else BLEProtocol.receivedCount r)) c0
    = Some (BLEProtocol.mkReassembler (BLEProtocol.r_total r)
              (<[Z.to_nat (BLEProtocol.index c) := Some (BLEProtocol.data c0)]>
                 (<[Z.to_nat (BLEProtocol.index c)
                    := Some (BLEProtocol.data c)]>
                    (BLEProtocol.r_chunks r)))
              (if slot is None then BLEProtocol.receivedCount r + 1
               else BLEProtocol.receivedCount r),
            success (bool_decide
              ((if slot is None then BLEProtocol.receivedCount r + 1
                else BLEProtocol.receivedCount r) = BLEProtocol.r_total r)))).
  { intros c0 Hi0 Ht0. unfold BLEProtocol.addChunk, UInt16_init.
    cbn [BLEProtocol.r_total BLEProtocol.r_chunks BLEProtocol.receivedCount].
    rewrite (decide_True (P := 0 ≤ BLEProtocol.r_total r ≤ 65535)) by done.
    simpl. rewrite Hi0, Ht0.
    rewrite (decide_False (P := BLEProtocol.total c ≠ BLEProtocol.r_total r))
      by (intros Hne; by apply Hne).
    rewrite (decide_False (P := ¬ BLEProtocol.index c < BLEProtocol.r_total r))
      by lia.
    rewrite Hfilled. done. }
  cbn [BLEProtocol.r_total BLEProtocol.r_chunks BLEProtocol.receivedCount].
  split; [by apply Hgen|].
  rewrite (Hgen c eq_refl eq_refl). by rewrite list_insert_insert_eq.
Qed.

Lemma wire_round_trip_witness :
  let c := BLEProtocol.mkChunk 1 2 (CRC32.compute [x68; x69]) [x68; x69] in
  BLEProtocol.fromBytes (BLEProtocol.toBytes c) = success c.
Proof.
  intros c.
  apply (proj2 (proj2 wire_round_trip) c); [cbn; lia | cbn; lia | reflexivity].
Defined.

Lemma chunkData_shape_witness :
  let data := replicate 1000 "A"%byte in
  ∃ chunks,
    BLEProtocol.chunkData data = Some chunks
    ∧ Z.of_nat (length chunks) = 3
    ∧ concat (BLEProtocol.data <$> chunks) = data.
Proof.
  intros data.
  destruct (BLEProtocol.chunkData data) as [chunks|] eqn:Hchunks.
  - exists chunks. split; [reflexivity|].
    destruct (proj2 (chunkData_shape data) chunks Hchunks) as (Hlen & Hcat & _).
    split; [exact Hlen | exact Hcat].
  - apply (proj1 (chunkData_shape data)) in Hchunks.
    vm_compute in Hchunks. discriminate Hchunks.
Defined.

Lemma reassembler_invariant_witness :
  let r := BLEProtocol.mkReassembler 2 [Some [x01]; None] 1 in
  reachable 2 r
  ∧ BLEProtocol.receivedCount r
    = Z.of_nat (length (filter is_Some (BLEProtocol.r_chunks r))).
Proof.
  intros r.
  assert (Hreach : reachable 2 r).
  { apply (reachable_addChunk 2 (BLEProtocol.mkReassembler 2 [None; None] 0)
             (BLEProtocol.mkChunk 0 2 0 [x01]) r (success false)).
    - apply reachable_init. reflexivity.
    - reflexivity. }
  split; [exact Hreach|].
  apply (reassembler_invariant 2 r Hreach).
Defined.

Lemma reassemble_exactly_when_complete_witness :
  let r := BLEProtocol.mkReassembler 1 [Some [x01]] 1 in
  reachable 1 r ∧ BLEProtocol.reassemble r = success [x01].
Proof.
  intros r.
  assert (Hreach : reachable 1 r).
  { apply (reachable_addChunk 1 (BLEProtocol.mkReassembler 1 [None] 0)
             (BLEProtocol.mkChunk 0 1 0 [x01]) r (success true)).
    - apply reachable_init. reflexivity.
    - reflexivity. }
  split; [exact Hreach|].
  exact (proj2 (proj1 (reassemble_exactly_when_complete 1 r Hreach))).
Defined.

Lemma addChunk_outcomes_witness :
  let r := BLEProtocol.mkReassembler 2 [None; None] 0 in
  BLEProtocol.addChunk r (BLEProtocol.mkChunk 0 3 0 [])
  = Some (r, failure "Total mismatch")
  ∧ BLEProtocol.addChunk r (BLEProtocol.mkChunk 5 2 0 [])
    = Some (r, failure "Index out of range").
Proof.
  intros r.
  assert (Hreach : reachable 2 r) by (apply reachable_init; reflexivity).
  split.
  - apply (proj1 (proj2 (addChunk_outcomes 2 r (BLEProtocol.mkChunk 0 3 0 [])
                           Hreach ltac:(cbn; lia))));
      [lia | cbn; lia].
  - apply (proj1 (proj2 (proj2
             (addChunk_outcomes 2 r (BLEProtocol.mkChunk 5 2 0 [])
                Hreach ltac:(cbn; lia)))));
      [lia | reflexivity | cbn; lia].
Defined.

Lemma addChunk_again_witness :
  let r1 := BLEProtocol.mkReassembler 2 [Some [x01]; None] 1 in
  BLEProtocol.addChunk r1 (BLEProtocol.mkChunk 0 2 0 [x02])
  = Some (BLEProtocol.mkReassembler 2 [Some [x02]; None] 1, success false).
Proof.
  intros r1.
  exact (proj1 (addChunk_again
                  (BLEProtocol.mkReassembler 2 [None; None] 0) r1
                  (BLEProtocol.mkChunk 0 2 0 [x01])
                  (BLEProtocol.mkChunk 0 2 0 [x02]) false
                  eq_refl eq_refl eq_refl)).
Defined.

(** ** Pairing codes *)

Lemma lor_shiftl_add (a b n : Z) :
  0 ≤ n → 0 ≤ a < 2 ^ n → Z.lor a (Z.shiftl b n) = a + b * 2 ^ n.
Proof.
  intros Hn Ha. rewrite <- Z.add_nocarry_lor; [by rewrite Z.shiftl_mul_pow2|].
  apply Z.bits_inj'. intros i Hi. rewrite Z.land_spec, Z.bits_0.
  destruct (decide (i < n)).
  - by rewrite Z.shiftl_spec_low, andb_false_r by lia.
  - by rewrite (testbit_small a n i) by lia.
Qed.

Lemma string_app_cons (c : ascii) (s1 s2 : string) :
  String c s1 +:+ s2 = String c (s1 +:+ s2).
Proof. reflexivity. Qed.

Lemma string_app_nil_l (s : string) : EmptyString +:+ s = s.
Proof. reflexivity. Qed.

Lemma string_app_nil_r (s : string) : s +:+ EmptyString = s.
Proof.
  induction s as [|c s IH]; [done|]. by rewrite string_app_cons, IH.
Qed.

Lemma decimalValue_app (s1 s2 : string) (acc : Z) :
  decimalValue acc (s1 +:+ s2) = decimalValue (decimalValue acc s1) s2.
Proof.
  revert acc. induction s1 as [|c s1 IH]; intros acc; [done|].
  rewrite string_app_cons. cbn [decimalValue]. apply IH.
Qed.

Lemma allDigits_app (s1 s2 : string) :
  allDigits s1 → allDigits s2 → allDigits (s1 +:+ s2).
Proof.
  induction s1 as [|c s1 IH]; [done|]. rewrite string_app_cons.
  cbn [allDigits]. intuition.
Qed.

Lemma string_length_app (s1 s2 : string) :
  String.length (s1 +:+ s2) = (String.length s1 + String.length s2)%nat.
Proof.
  induction s1 as [|c s1 IH]; [done|]. rewrite string_app_cons.
  cbn [String.length]. by rewrite IH.
Qed.

Lemma string_app_assoc (s1 s2 s3 : string) :
  (s1 +:+ s2) +:+ s3 = s1 +:+ (s2 +:+ s3).
Proof.
  induction s1 as [|c s1 IH]; [done|]. by rewrite !string_app_cons, IH.
Qed.

Lemma digitChar_value (d : Z) :
  0 ≤ d < 10 →
  Z.of_nat (nat_of_ascii (CryptoServiceUtility.digitChar d)) = 48 + d.
Proof.
  intros Hd. unfold CryptoServiceUtility.digitChar.
  rewrite nat_ascii_embedding by lia. lia.
Qed.

Lemma decimal_go_digits (fuel : nat) :
  ∀ (k : nat) (n : Z) (acc : string),
    (1 ≤ k ≤ fuel)%nat → 0 ≤ n < 10 ^ Z.of_nat k →
    ∃ digits,
      CryptoServiceUtility.decimal_go fuel n acc = digits +:+ acc
      ∧ (1 ≤ String.length digits ≤ k)%nat
      ∧ allDigits digits
      ∧ ∀ a, decimalValue a digits
             = a * 10 ^ Z.of_nat (String.length digits) + n.
Proof.
  induction fuel as [|fuel IH]; intros k n acc Hk Hn; [lia|].
  cbn [CryptoServiceUtility.decimal_go].
  pose proof (Z.mod_pos_bound n 10 ltac:(lia)) as Hmod.
  pose proof (Z.div_mod n 10 ltac:(lia)) as Hdiv.
  assert (Hdigit : isDigit (CryptoServiceUtility.digitChar (n mod 10))).
  { unfold isDigit. rewrite digitChar_value by lia. lia. }
  case_decide as Hzero.
  - exists (String (CryptoServiceUtility.digitChar (n mod 10)) EmptyString).
    split; [done|]. cbn [String.length]. split; [lia|].
    split; [by split|]. intros a. cbn [decimalValue].
    rewrite digitChar_value by lia. change (10 ^ Z.of_nat 1) with 10. lia.
  - destruct k as [|k]; [lia|].
    destruct k as [|k].
    { change (10 ^ Z.of_nat 1) with 10 in Hn.
      exfalso. apply Hzero. apply Z.div_small. lia. }
    destruct (IH (S k) (n / 10)
                (String (CryptoServiceUtility.digitChar (n mod 10)) acc)
                ltac:(lia)) as (digits & Hgo & Hlen & Hall & Hval).
    { split; [apply Z.div_pos; lia|].
      apply Z.div_lt_upper_bound; [lia|].
      replace (10 * 10 ^ Z.of_nat (S k)) with (10 ^ Z.of_nat (S (S k)));
        [lia|].
      rewrite (Nat2Z.inj_succ (S k)), Z.pow_succ_r by lia. done. }
    exists (digits +:+ String (CryptoServiceUtility.digitChar (n mod 10))
                         EmptyString).
    split; [by rewrite Hgo, string_app_assoc|].
    rewrite string_length_app. cbn [String.length]. split; [lia|].
    split; [apply allDigits_app; [done|by split]|].
    intros a. rewrite decimalValue_app, Hval. cbn [decimalValue].
    rewrite digitChar_value by lia.
    replace (String.length digits + 1)%nat with (S (String.length digits))
      by lia.
    rewrite Nat2Z.inj_succ, Z.pow_succ_r by lia. lia.
Qed.

Lemma format_06d_digits (n : Z) :
  0 ≤ n < 1000000 →
  String.length (CryptoServiceUtility.format_06d n) = 6%nat
  ∧ allDigits (CryptoServiceUtility.format_06d n)
  ∧ decimalValue 0 (CryptoServiceUtility.format_06d n) = n.
Proof.
  intros Hn. unfold CryptoServiceUtility.format_06d, CryptoServiceUtility.decimal.
  destruct (decimal_go_digits 20 6 n EmptyString ltac:(lia) ltac:(lia))
    as (digits & -> & Hlen & Hall & Hval).
  rewrite string_app_nil_r.
  assert (Hzeros : ∀ k,
    String.length (CryptoServiceUtility.zeros k) = k
    ∧ allDigits (CryptoServiceUtility.zeros k)
    ∧ decimalValue 0 (CryptoServiceUtility.zeros k) = 0).
  { intros k. induction k as [|k (IH1 & IH2 & IH3)]; [done|].
    cbn [CryptoServiceUtility.zeros String.length allDigits decimalValue].
    split; [by rewrite IH1|].
    split; [split; [|done]|].
    { unfold isDigit. change (Z.of_nat (nat_of_ascii "0")) with 48. lia. }
    change (10 * 0 + (Z.of_nat (nat_of_ascii "0") - 48)) with 0. done. }
  destruct (Hzeros (6 - String.length digits)%nat) as (Hz1 & Hz2 & Hz3).
  rewrite string_length_app, Hz1. split; [lia|].
  split; [by apply allDigits_app|].
  rewrite decimalValue_app, Hz3, Hval. lia.
Qed.

(** X7. A pairing code is always six decimal digits, whatever the four
    random bytes are, and the number it spells is the little-endian 32-bit
    value of the bytes modulo 1 000 000 (small values are padded with
    zeros on the left). *)
Theorem generatePairingCode_six_digits (b0 b1 b2 b3 : byte) :
  let code := CryptoServiceUtility.generatePairingCode b0 b1 b2 b3 in
  String.length code = 6%nat
  ∧ allDigits code
  ∧ decimalValue 0 code
    = (UInt8_toZ b0 + 256 * UInt8_toZ b1 + 65536 * UInt8_toZ b2
       + 16777216 * UInt8_toZ b3) mod 1000000.
Proof.
  intros code. subst code. unfold CryptoServiceUtility.generatePairingCode.
  pose proof (UInt8_toZ_range b0). pose proof (UInt8_toZ_range b1).
  pose proof (UInt8_toZ_range b2). pose proof (UInt8_toZ_range b3).
  rewrite (lor_shiftl_add (UInt8_toZ b0) (UInt8_toZ b1) 8) by lia.
  rewrite (lor_shiftl_add _ (UInt8_toZ b2) 16) by lia.
  rewrite (lor_shiftl_add _ (UInt8_toZ b3) 24) by lia.
  change (2 ^ 8) with 256. change (2 ^ 16) with 65536.
  change (2 ^ 24) with 16777216.
  replace (UInt8_toZ b0 + UInt8_toZ b1 * 256 + UInt8_toZ b2 * 65536
           + UInt8_toZ b3 * 16777216)
    with (UInt8_toZ b0 + 256 * UInt8_toZ b1 + 65536 * UInt8_toZ b2
          + 16777216 * UInt8_toZ b3) by lia.
  apply format_06d_digits. apply Z.mod_pos_bound. lia.
Qed.

(** ** Buffers too short to hold a tag *)

(** X8. A stored buffer of fewer than 16 bytes cannot hold a tag: [decrypt]
    fails on it for every nonce and key, and a row with a nonce and such a
    blob never appears in the list. *)
Theorem short_blob_never_listed `{CryptoKit} `{!SealedBoxContract}
    `{Foundation} (key : Data) (e : VaultEntry) :
  nonce e ≠ [] → (length (dataBlob e) < 16)%nat →
  failed (CryptoService.decrypt (dataBlob e) (nonce e) key)
  ∧ VaultListView.displayEntry key e = None.
Proof.
  intros Hnonce Hshort.
  assert (Hfail : failed (CryptoService.decrypt (dataBlob e) (nonce e) key)).
  { unfold CryptoService.decrypt, failed.
    destruct (Nonce_init (nonce e)) as [gcmNonce|err]; cbn [try_bind];
      [|by eexists].
    destruct (SealedBox_init gcmNonce (CryptoService.dropLast 16 (dataBlob e))
                (CryptoService.suffix 16 (dataBlob e))) as [sealed|err] eqn:Hbox;
      cbn [try_bind]; [|by eexists].
    apply SealedBox_init_tag_size in Hbox.
    unfold CryptoService.suffix in Hbox. rewrite length_drop in Hbox. lia. }
  split; [done|]. by apply displayEntry_None.
Qed.

Lemma Toy_SealedBox : @SealedBoxContract Toy.cryptoKit.
Proof. split. cbn. intros n c t sb. by case_decide. Qed.

Lemma short_blob_never_listed_witness :
  let e := mkVaultEntry (Some 1) "site" [x01; x02; x03] (replicate 12 x02) 1
             None "2026-01-01T00:00:00Z" "2026-01-01T00:00:00Z" None 1 in
  @VaultListView.displayEntry Toy.cryptoKit Toy.foundation
    (replicate 32 x01) e = None.
Proof.
  intros e.
  apply (@short_blob_never_listed Toy.cryptoKit Toy_SealedBox Toy.foundation
           (replicate 32 x01) e); [discriminate | cbn; lia].
Defined.

(** ** The encryption salt, written and read *)

Lemma hex2_two (b : byte) :
  ∃ c1 c2, AuthService.hex2 b = String c1 (String c2 EmptyString).
Proof. destruct b; by eexists _, _. Qed.

Lemma substring_all (s : string) : String.substring 0 (String.length s) s = s.
Proof. induction s as [|c s IH]; [done|]. cbn. by rewrite IH. Qed.

Lemma substring_none (s : string) : String.substring 0 0 s = EmptyString.
Proof. by destruct s. Qed.

Lemma hexString_loop_encoded `{Foundation} `{!HexContract} (d acc : Data) :
  AuthService.hexString_loop (length d)
    (foldr (fun b s => AuthService.hex2 b +:+ s) EmptyString d) acc
  = Some (acc ++ d)
  ∧ String.length (foldr (fun b s => AuthService.hex2 b +:+ s) EmptyString d)
    = (2 * length d)%nat.
Proof.
  revert acc. induction d as [|b d IH]; intros acc.
  { split; [|done]. cbn. by rewrite app_nil_r. }
  cbn [foldr length AuthService.hexString_loop].
  pose proof (UInt8_radix16_hex2 b) as Hb.
  destruct (hex2_two b) as (c1 & c2 & Hhex). rewrite Hhex in Hb |- *.
  rewrite !string_app_cons, string_app_nil_l.
  destruct (IH (acc ++ [b])) as [Hloop Hlen].
  split.
  - cbn [String.substring String.length]. rewrite substring_none, Hb.
    cbn [mbind option_bind].
    replace (S (S (String.length
               (foldr (fun b s => AuthService.hex2 b +:+ s) EmptyString d)))
             - 2)%nat
      with (String.length
              (foldr (fun b s => AuthService.hex2 b +:+ s) EmptyString d))
      by lia.
    rewrite substring_all, Hloop. by rewrite <- app_assoc.
  - cbn [String.length]. rewrite Hlen. lia.
Qed.

(** X9. [Data(hexString:)] reads back what [register] writes as the
    encryption salt: the bytes of a buffer, two lower-case hexadecimal
    digits each, decode to the buffer. *)
Theorem hexString_round_trip `{Foundation} `{!HexContract} (d : Data) :
  AuthService.Data_hexString
    (foldr (fun b s => AuthService.hex2 b +:+ s) EmptyString d)
  = Some d.
Proof.
  unfold AuthService.Data_hexString.
  destruct (hexString_loop_encoded d []) as [Hloop Hlen].
  rewrite Hlen.
  replace (2 * length d / 2)%nat with (length d)
    by (symmetry; rewrite Nat.mul_comm; by apply Nat.div_mul).
  exact Hloop.
Qed.

(** ** Accounts *)

(** X10. No account is created or opened through the record layer.
    [register] throws for every input and leaves the database and the
    service as they are: when the password hashes, the INSERT names the
    column passwordHash, which table users lacks.  [login] throws for
    every input and leaves the service, and with its Keychain write the
    Keychain, as they are: the error is [invalidCredentials] when no row
    has the user name, and another one, the decoding error of the row,
    when a row has it. *)
Theorem register_and_login_never_succeed `{Argon2Swift} `{Foundation}
    (saltBytes encSaltBytes : Data) (db : DatabaseService.Database)
    (self : AuthService.AuthService) (kc : KeychainService.Keychain)
    (name password : string) (addFailure : option Z) (accessControl : bool) :
  (∃ e, AuthService.register saltBytes encSaltBytes db self name password
        = (db, self, failure e))
  ∧ ∃ e,
      AuthService.login db self name password = (self, failure e)
      ∧ AuthServiceKeychain.login addFailure accessControl db self kc name
          password
        = (self, kc, failure e)
      ∧ (e = authError invalidCredentials
         ↔ DatabaseService.users db !! name = None).
Proof.
  split.
  - unfold AuthService.register. cbn zeta.
    destruct (CryptoService.hashPassword password saltBytes) as [h|e];
      [|by eexists].
    rewrite createUser_refused. by eexists.
  - unfold AuthServiceKeychain.login, AuthService.login.
    rewrite getUser_outcome.
    destruct (DatabaseService.users db !! name) as [row|];
      eexists; (split; [reflexivity|]); (split; [reflexivity|]); done.
Qed.

Lemma Toy_Hex : @HexContract Toy.foundation.
Proof. split. intros b. destruct b; reflexivity. Qed.

Lemma hexString_round_trip_witness :
  @AuthService.Data_hexString Toy.foundation "00ff10" = Some [x00; xff; x10].
Proof.
  exact (@hexString_round_trip Toy.foundation Toy_Hex [x00; xff; x10]).
Defined.

(** ** The Keychain and Face ID *)

(** X11. Face ID after [store].  Once [store] has put a key under
    [encryptionKey], an [unlockWithBiometrics] that passes the biometric
    check unlocks any instance of the service with exactly that key.  If
    the system refuses the new item, [store] throws and the Keychain holds
    no key at all, not even the one it held before, and the unlock answers
    [noStoredKey].  Either way no other item of the Keychain changes. *)
Theorem biometric_unlock_after_store (addFailure : option Z)
    (accessControl requireBiometric : bool)
    (kc : KeychainService.Keychain) (keyData : Data)
    (later : AuthService.AuthService) :
  let stored :=
    KeychainService.store addFailure accessControl kc
      KeychainService.encryptionKey keyData requireBiometric in
  stored.2
  = match addFailure with
    | None => success ()
    | Some status => failure (KeychainService.storeFailure status)
    end
  ∧ AuthServiceKeychain.unlockWithBiometrics (success true) None later
      stored.1
    = match addFailure with
      | None =>
          (AuthService.mkAuthService (AuthService.isRegistered later) true
             (AuthService.activeProfileId later) (Some keyData),
           success ())
      | Some _ =>
          (later, failure (AuthServiceKeychain.unlockAuthError noStoredKey))
      end
  ∧ ∀ account,
      account ≠ KeychainService.rawValue KeychainService.encryptionKey →
      stored.1 !! account = kc !! account.
Proof.
  intros stored. subst stored.
  unfold AuthServiceKeychain.unlockWithBiometrics, KeychainService.retrieve,
    KeychainService.store.
  destruct addFailure as [status|]; cbn [fst snd].
  - split; [done|]. rewrite lookup_delete_eq. split; [done|].
    intros account Haccount. by rewrite lookup_delete_ne.
  - split; [done|]. rewrite lookup_insert_eq. split; [done|].
    intros account Haccount.
    by rewrite lookup_insert_ne, lookup_delete_ne.
Qed.

Lemma biometric_unlock_after_store_witness :
  let kc : KeychainService.Keychain :=
    {[ "session_active" := KeychainService.mkItem [x01] false ]} in
  (KeychainService.store None true kc KeychainService.encryptionKey
     (replicate 32 x07) true).1 !! "session_active"
  = kc !! "session_active".
Proof.
  intros kc.
  destruct (biometric_unlock_after_store None true true kc
              (replicate 32 x07) lockedService) as (_ & _ & Hother).
  apply Hother. discriminate.
Defined.

(** X12. After [logout] the service is locked, back on profile 1, and Face
    ID cannot open it: the key is gone from the Keychain, so
    [unlockWithBiometrics] fails on every instance of the service, whatever
    the biometric check and the Keychain answer, until a password login
    stores a key again. *)
Theorem logout_disables_biometric_unlock
    (self later : AuthService.AuthService) (kc : KeychainService.Keychain)
    (biometrics : Result bool string) (osFailure : option Z) :
  let self' := (AuthServiceKeychain.logout self kc).1 in
  let kc' := (AuthServiceKeychain.logout self kc).2 in
  AuthService.getEncryptionKey self' = None
  ∧ AuthService.isAuthenticated self' = false
  ∧ AuthService.activeProfileId self' = 1
  ∧ AuthService.isRegistered self' = AuthService.isRegistered self
  ∧ (∀ key, key ≠ KeychainService.rawValue KeychainService.encryptionKey →
            kc' !! key = kc !! key)
  ∧ ∃ e,
      AuthServiceKeychain.unlockWithBiometrics biometrics osFailure later kc'
      = (later, failure e).
Proof.
  intros self' kc'. subst self' kc'. cbn [AuthServiceKeychain.logout fst snd].
  do 4 (split; [done|]).
  split.
  { intros key Hkey. unfold KeychainService.delete.
    by rewrite lookup_delete_ne. }
  unfold AuthServiceKeychain.unlockWithBiometrics, KeychainService.retrieve,
    KeychainService.delete.
  destruct biometrics as [[]|description]; [|by eexists..].
  destruct osFailure as [status|]; [by eexists|].
  rewrite lookup_delete_eq. by eexists.
Qed.

(** X13. Without a key nothing of the vault opens.  On a service that has
    logged out, [loadEntries] leaves the list as it is and reads no row,
    and adding or editing an entry stops with "Session expired" before
    anything is encoded, encrypted or written. *)
Theorem logout_locks_vault `{CryptoKit} `{Foundation}
    (self : AuthService.AuthService) (view : VaultListView.VaultListView)
    (rawEntries : Throws (list VaultEntry))
    (store : DatabaseStore.Store) (freshNonce : Data) (now freshUUID : string)
    (profileId' : Z) (siteName username' password totpSecret notes : string)
    (entry : VaultEntry) (entryData : VaultEntryData) :
  let key := AuthService.getEncryptionKey (AuthService.logout self) in
  VaultListView.loadEntries view key rawEntries = view
  ∧ AddEntryView.saveEntry freshNonce now freshUUID store key profileId'
      siteName username' password totpSecret notes
    = (store, Some "Session expired")
  ∧ EntryDetailView.updateEntry freshNonce now (DatabaseStore.database store)
      key entry siteName entryData
    = Some (DatabaseStore.database store, Some "Session expired").
Proof. done. Qed.

(** ** Rowids *)

Lemma rowids_NoDup (rows : list VaultEntry) :
  rowidsIncrease rows → NoDup (id <$> rows).
Proof.
  intros (ids & -> & Hsorted). apply (NoDup_fmap_2 Some).
  induction Hsorted as [|j ids Hsorted IH Hj]; constructor; [|done].
  intros Hin. eapply Forall_forall in Hj; [|exact Hin]. lia.
Qed.

Lemma rowids_Some (rows : list VaultEntry) (k : nat) (e : VaultEntry) :
  rowidsIncrease rows → rows !! k = Some e → is_Some (id e).
Proof.
  intros (ids & Hids & _) Hk.
  assert (Hl : (id <$> rows) !! k = Some (id e))
    by (by rewrite list_lookup_fmap, Hk).
  rewrite Hids, list_lookup_fmap in Hl.
  destruct (ids !! k) as [j|]; [|done]. injection Hl as <-. by eexists.
Qed.

(** Replacing the rows that have the rowid of row [k] replaces row [k]
    and no other. *)
Lemma fmap_row_unique (rows : list VaultEntry) (k : nat) (e : VaultEntry)
    (f : VaultEntry → VaultEntry) :
  rowidsIncrease rows → rows !! k = Some e →
  (∀ r, id r ≠ id e → f r = r) →
  f <$> rows = <[k := f e]> rows.
Proof.
  intros Hrows Hk Hother. apply list_eq. intros j.
  rewrite list_lookup_fmap.
  destruct (decide (j = k)) as [->|Hjk].
  - rewrite list_lookup_insert_eq by (by eapply lookup_lt_Some).
    by rewrite Hk.
  - rewrite list_lookup_insert_ne by done.
    destruct (rows !! j) as [r|] eqn:Hj; [|done]. cbn. f_equal.
    apply Hother. intros Hid. apply Hjk.
    eapply (NoDup_lookup (id <$> rows)); [by apply rowids_NoDup| |].
    + by rewrite list_lookup_fmap, Hj.
    + rewrite list_lookup_fmap, Hk. cbn. by rewrite Hid.
Qed.

(** ** Entries through the record layer, and the soft delete *)

Section Vault.
Context `{CryptoKit} `{Foundation}.


(** X15. No stored row is listed.  [getActiveEntries] returns the empty
    list when its query selects no row and throws otherwise, on decoding
    the first row (the property dataBlob has no column); so [loadEntries]
    shows the empty list, or it keeps the list it had and prints the
    error.  [getAllProfiles] behaves in the same way on the profiles (the
    property createdAt has no column). *)
Theorem stored_rows_are_never_listed (db : DatabaseService.Database)
    (profileId' : Z) (key : Data) (view : VaultListView.VaultListView)
    (store : DatabaseStore.Store) :
  let fetched := DatabaseService.getActiveEntries db profileId' in
  let view' := VaultListView.loadEntries view (Some key) fetched in
  (DatabaseService.activeRows db profileId' = [] →
   fetched = success []
   ∧ view' = VaultListView.mkVaultListView [] (VaultListView.console view))
  ∧ (DatabaseService.activeRows db profileId' ≠ [] →
     ∃ e,
       fetched = failure e
       ∧ view'
         = VaultListView.mkVaultListView (VaultListView.entries view)
             (VaultListView.console view
                ++ ["Failed to load entries: " +:+ localizedDescription e]))
  ∧ (DatabaseStore.profiles store = [] →
     DatabaseStore.getAllProfiles store = success [])
  ∧ (DatabaseStore.profiles store ≠ [] →
     ∃ e, DatabaseStore.getAllProfiles store = failure e).
Proof.
  intros fetched view'. subst view' fetched.
  unfold DatabaseService.getActiveEntries, DatabaseStore.getAllProfiles.
  split; [|split; [|split]].
  - by intros ->.
  - intros Hrows.
    destruct (DatabaseService.activeRows db profileId') as [|r rows];
      [done|].
    rewrite decodeRecord_VaultEntry. by eexists.
  - by intros ->.
  - intros Hrows. destruct (DatabaseStore.profiles store); [done|].
    rewrite decodeRecord_Profile. by eexists.
Qed.

(** X17. A deleted entry leaves the rows of every listing and stays in the
    table.  For an active row of a table with increasing rowids,
    [deleteEntry] of the detail view turns that row and no other into a
    tombstone (deletion date and update date set, version incremented by
    SQLite, that is by one when it is a 64-bit integer); the row is then
    among the rows that the query of [getActiveEntries] selects for no
    profile, the other selected rows are as before, the count of its
    profile goes down by one, and deleting it once more changes nothing. *)
Theorem deleted_entry_is_unlisted (now later : string)
    (store : DatabaseStore.Store) (k : nat) (e : VaultEntry) :
  let db := DatabaseStore.database store in
  rowidsIncrease (DatabaseService.vault_entries db) →
  DatabaseService.vault_entries db !! k = Some e →
  deletedAt e = None →
  let tombstone :=
    mkVaultEntry (id e) (uuid e) (dataBlob e) (nonce e) (profileId e)
      (entryUuid e) (createdAt e) now (Some now)
      (DatabaseService.sqlite_increment (syncVersion e)) in
  let db' := EntryDetailView.deleteEntry now db e in
  db' = DatabaseService.mkDatabase (DatabaseService.users db)
          (<[k := tombstone]> (DatabaseService.vault_entries db))
  ∧ (Int64 (syncVersion e) → syncVersion tombstone = syncVersion e + 1)
  ∧ (∀ p, DatabaseService.activeRows db' p
          = filter (fun r => id r ≠ id e)
                   (DatabaseService.activeRows db p))
  ∧ DatabaseStore.getProfileEntryCount
      (DatabaseStore.mkStore db' (DatabaseStore.profiles store)) (profileId e)
    = DatabaseStore.getProfileEntryCount store (profileId e) - 1
  ∧ EntryDetailView.deleteEntry later db' e = db'
  ∧ EntryDetailView.deleteEntry later db' tombstone = db'.
Proof.
  intros db Hrows Hk Hactive tombstone db'.
  destruct (rowids_Some _ k e Hrows Hk) as [i Hid].
  assert (Hdb' : db' = DatabaseService.mkDatabase (DatabaseService.users db)
                         (<[k := tombstone]> (DatabaseService.vault_entries db))).
  { subst db'. unfold EntryDetailView.deleteEntry. rewrite Hid.
    unfold DatabaseService.softDeleteEntry. f_equal.
    rewrite (fmap_row_unique _ k e) by
      (try done; intros r Hr; unfold DatabaseService.softDeleteRow;
       apply decide_False; intros [Hr' _]; apply Hr; congruence).
    f_equal. unfold DatabaseService.softDeleteRow.
    by rewrite decide_True by done. }
  split; [exact Hdb'|].
  split.
  { intros Hint. cbn [syncVersion tombstone].
    unfold DatabaseService.sqlite_increment. by rewrite decide_True. }
  assert (Hlist : ∀ p,
    DatabaseService.activeRows db' p
    = filter (fun r => id r ≠ id e) (DatabaseService.activeRows db p)).
  { intros p. rewrite Hdb'. unfold DatabaseService.activeRows.
    cbn [DatabaseService.vault_entries].
    assert (Hfmap :
      (fun r => if decide (id r = id e) then tombstone else r)
        <$> DatabaseService.vault_entries db
      = <[k := tombstone]> (DatabaseService.vault_entries db)).
    { rewrite (fmap_row_unique _ k e)
        by (try done; intros r Hr; by rewrite decide_False).
      by rewrite decide_True. }
    rewrite <- Hfmap, list_filter_filter. clear Hfmap.
    generalize (DatabaseService.vault_entries db). intros rows.
    induction rows as [|r rows IH]; [done|].
    rewrite fmap_cons, !filter_cons, IH.
    destruct (decide (id r = id e)) as [Hr|Hr].
    - rewrite (decide_False
                 (P := profileId tombstone = p ∧ deletedAt tombstone = None))
        by (by intros [_ ?]).
      by rewrite decide_False by tauto.
    - destruct (decide (profileId r = p ∧ deletedAt r = None)) as [Hp|Hp].
      + by rewrite decide_True by tauto.
      + by rewrite decide_False by tauto. }
  split; [exact Hlist|].
  assert (Hsecond : ∀ entry, id entry = id e → profileId entry = profileId e →
    EntryDetailView.deleteEntry later db' entry = db').
  { intros entry Hentry Hprofile. unfold EntryDetailView.deleteEntry.
    rewrite Hentry, Hid, Hprofile. rewrite Hdb' at 2.
    unfold DatabaseService.softDeleteEntry. rewrite Hdb'.
    cbn [DatabaseService.users DatabaseService.vault_entries]. f_equal.
    rewrite <- (list_fmap_id (<[k := tombstone]> _)) at 2.
    apply list_fmap_ext. intros j r Hj.
    unfold DatabaseService.softDeleteRow. apply decide_False.
    intros (Hr & _ & Hdel).
    destruct (decide (j = k)) as [->|Hjk].
    - rewrite list_lookup_insert_eq in Hj by (by eapply lookup_lt_Some).
      by injection Hj as <-.
    - rewrite list_lookup_insert_ne in Hj by done. apply Hjk.
      eapply (NoDup_lookup (id <$> DatabaseService.vault_entries db));
        [by apply rowids_NoDup| |].
      + by rewrite list_lookup_fmap, Hj.
      + rewrite list_lookup_fmap, Hk. cbn. congruence. }
  split; [|split; [by apply Hsecond|by apply Hsecond]].
  unfold DatabaseStore.getProfileEntryCount.
  cbn [DatabaseStore.database].
  change (filter _ (DatabaseService.vault_entries db'))
    with (DatabaseService.activeRows db' (profileId e)).
  change (filter _ (DatabaseService.vault_entries (DatabaseStore.database store)))
    with (DatabaseService.activeRows db (profileId e)).
  rewrite Hlist.
  assert (Hin : e ∈ DatabaseService.activeRows db (profileId e)).
  { unfold DatabaseService.activeRows. apply list_elem_of_filter.
    split; [done|]. by eapply list_elem_of_lookup_2. }
  assert (Hnodup : NoDup (id <$> DatabaseService.activeRows db
                                   (profileId e))).
  { unfold DatabaseService.activeRows.
    eapply sublist_NoDup; [by apply rowids_NoDup|].
    apply fmap_sublist, sublist_filter. }
  revert Hin Hnodup.
  generalize (DatabaseService.activeRows db (profileId e)).
  intros rows. induction rows as [|r rows IH]; intros Hin Hnodup;
    [by apply elem_of_nil in Hin|].
  rewrite fmap_cons in Hnodup. apply NoDup_cons in Hnodup as [Hr Hnodup].
  rewrite filter_cons. cbn [length].
  apply elem_of_cons in Hin as [<-|Hin].
  - rewrite decide_False by (intros Hne; by apply Hne).
    assert (Hall : filter (fun r => id r ≠ id e) rows = rows).
    { clear -Hr. induction rows as [|r rows IH]; [done|].
      rewrite fmap_cons in Hr. apply not_elem_of_cons in Hr as [Hne Hr].
      rewrite filter_cons, decide_True by done. by rewrite IH. }
    rewrite Hall. lia.
  - rewrite decide_True.
    + cbn [length]. specialize (IH Hin Hnodup). lia.
    + intros Heq. apply Hr. rewrite Heq. by apply list_elem_of_fmap_2.
Qed.

End Vault.

Lemma stored_rows_are_never_listed_witness :
  DatabaseService.activeRows vaultDatabase 1 = [githubEntry]
  ∧ ∃ e,
      DatabaseService.getActiveEntries vaultDatabase 1 = failure e
      ∧ VaultListView.entries
          (@VaultListView.loadEntries Toy.cryptoKit Toy.foundation emptyView
             (Some (replicate 32 x01))
             (DatabaseService.getActiveEntries vaultDatabase 1))
        = [].
Proof.
  split; [reflexivity|].
  destruct (@stored_rows_are_never_listed Toy.cryptoKit Toy.foundation
              vaultDatabase 1 (replicate 32 x01) emptyView
              (DatabaseStore.mkStore vaultDatabase []))
    as (_ & Hrows & _).
  destruct Hrows as (e & Hfetch & Hview); [discriminate|].
  exists e. split; [exact Hfetch|]. cbv zeta in Hview. by rewrite Hview.
Defined.

Lemma deleted_entry_is_unlisted_witness :
  let store :=
    DatabaseStore.mkStore vaultDatabase
      [mkProfile (Some 1) "Personal" "2026-01-01 00:00:00"] in
  DatabaseService.activeRows vaultDatabase 1 = [githubEntry]
  ∧ DatabaseService.activeRows
      (EntryDetailView.deleteEntry "2026-11-02T10:00:00Z" vaultDatabase
         githubEntry) 1
    = []
  ∧ length (DatabaseService.vault_entries
              (EntryDetailView.deleteEntry "2026-11-02T10:00:00Z"
                 vaultDatabase githubEntry)) = 1%nat.
Proof.
  intros store.
  assert (Hrows : rowidsIncrease
            (DatabaseService.vault_entries (DatabaseStore.database store))).
  { exists [1]. split; [reflexivity|]. repeat constructor. }
  destruct (@deleted_entry_is_unlisted "2026-11-02T10:00:00Z"
              "2026-11-03T10:00:00Z" store 0%nat githubEntry
              Hrows eq_refl eq_refl)
    as (Hdb & _ & Hlist & _).
  split; [reflexivity|]. split; [exact (Hlist 1)|].
  change (DatabaseStore.database store) with vaultDatabase in Hdb.
  rewrite Hdb. reflexivity.
Defined.

(** ** The central manager over a run of calls and callbacks *)

Lemma run_cons (m : CentralManager.Manager) (ev : CentralManager.Event)
    (evs : list CentralManager.Event) :
  CentralManager.run m (ev :: evs)
  = CentralManager.run (CentralManager.step m ev) evs.
Proof. reflexivity. Qed.

Lemma step_disconnected (m : CentralManager.Manager)
    (ev : CentralManager.Event) :
  CentralManager.connectedPeripheral m = None → ¬ didConnectEvent ev →
  CentralManager.connectedPeripheral (CentralManager.step m ev) = None
  ∧ ∃ added,
      CentralManager.requests (CentralManager.step m ev)
      = CentralManager.requests m ++ added
      ∧ Forall (fun r => ¬ CentralManager.onPeripheral r) added.
Proof.
  intros Hnone Hev.
  assert (Hsame : ∀ rs : list CentralManager.Request,
    ∃ added, rs = rs ++ added
             ∧ Forall (fun r => ¬ CentralManager.onPeripheral r) added).
  { intros rs. exists []. by rewrite app_nil_r. }
  assert (Hone : ∀ (rs : list CentralManager.Request) r,
    ¬ CentralManager.onPeripheral r →
    ∃ added, rs ++ [r] = rs ++ added
             ∧ Forall (fun r => ¬ CentralManager.onPeripheral r) added).
  { intros rs r Hr. exists [r]. split; [done|]. by constructor. }
  assert (Htwo : ∀ (rs : list CentralManager.Request) r1 r2,
    ¬ CentralManager.onPeripheral r1 → ¬ CentralManager.onPeripheral r2 →
    ∃ added, (rs ++ [r1]) ++ [r2] = rs ++ added
             ∧ Forall (fun r => ¬ CentralManager.onPeripheral r) added).
  { intros rs r1 r2 Hr1 Hr2. exists [r1; r2].
    split; [by rewrite <- app_assoc|]. by repeat constructor. }
  destruct ev; try (by destruct Hev); manager_cases;
    (split; [done|]);
    first [apply Hsame | apply Hone; by intros [] | apply Htwo; by intros []].
Qed.

(** X18. Nothing is read from or written to the peripheral while none is
    connected.  [disconnect] and the disconnection callback leave the
    manager without a peripheral; from such a state, as long as the system
    does not report a new connection, no call of the API and no callback
    makes the manager read, write or subscribe to a characteristic (the
    calls return without effect), whatever characteristics it remembers. *)
Theorem no_characteristic_io_while_disconnected :
  (∀ m, CentralManager.connectedPeripheral (CentralManager.disconnect m) = None
        ∧ CentralManager.connectedPeripheral
            (CentralManager.didDisconnectPeripheral m) = None)
  ∧ ∀ (m : CentralManager.Manager) (evs : list CentralManager.Event),
      CentralManager.connectedPeripheral m = None →
      Forall (fun ev => ¬ didConnectEvent ev) evs →
      CentralManager.connectedPeripheral (CentralManager.run m evs) = None
      ∧ ∃ added,
          CentralManager.requests (CentralManager.run m evs)
          = CentralManager.requests m ++ added
          ∧ Forall (fun r => ¬ CentralManager.onPeripheral r) added.
Proof.
  split.
  { intros m. split; manager_cases; done. }
  intros m evs. revert m.
  induction evs as [|ev evs IH]; intros m Hnone Hevs.
  { split; [done|]. exists []. by rewrite app_nil_r. }
  apply Forall_cons in Hevs as [Hev Hevs]. rewrite run_cons.
  destruct (step_disconnected m ev Hnone Hev) as (Hnone' & added & Hreq & Hadded).
  destruct (IH _ Hnone' Hevs) as (Hfinal & added' & Hreq' & Hadded').
  split; [done|]. exists (added ++ added').
  split; [by rewrite Hreq', Hreq, app_assoc|]. by apply Forall_app.
Qed.

Lemma no_characteristic_io_while_disconnected_witness :
  let m :=
    CentralManager.run (CentralManager.init true)
      [CentralManager.onDidDiscoverCharacteristics
         [CentralManager.pairingChar; CentralManager.dataTransferChar];
       CentralManager.callWritePairingData [x01];
       CentralManager.callSubscribeToDataTransfer;
       CentralManager.callStartScanning] in
  CentralManager.connectedPeripheral m = None
  ∧ ∃ added,
      CentralManager.requests m
      = CentralManager.requests (CentralManager.init true) ++ added
      ∧ Forall (fun r => ¬ CentralManager.onPeripheral r) added.
Proof.
  intros m.
  apply (proj2 no_characteristic_io_while_disconnected);
    [reflexivity | repeat constructor; intros []].
Defined.

Lemma step_received (m : CentralManager.Manager) (ev : CentralManager.Event) :
  CentralManager.receivedChunks (CentralManager.step m ev)
  = CentralManager.receivedChunks m ++ option_list (dataNotification ev)
  ∧ (CentralManager.chunksReceived (CentralManager.syncProgress m)
     = Z.of_nat (length (CentralManager.receivedChunks m)) →
     CentralManager.chunksReceived
       (CentralManager.syncProgress (CentralManager.step m ev))
     = Z.of_nat (length (CentralManager.receivedChunks
                           (CentralManager.step m ev))))
  ∧ (is_Some (CentralManager.peerPublicKey (CentralManager.syncProgress m)) →
     is_Some (CentralManager.peerPublicKey
                (CentralManager.syncProgress (CentralManager.step m ev))))
  ∧ CentralManager.totalChunks
      (CentralManager.syncProgress (CentralManager.step m ev))
    = CentralManager.totalChunks (CentralManager.syncProgress m)
  ∧ CentralManager.entriesSynced
      (CentralManager.syncProgress (CentralManager.step m ev))
    = CentralManager.entriesSynced (CentralManager.syncProgress m).
Proof.
  unfold dataNotification.
  destruct ev; manager_cases; cbn [option_list];
    rewrite ?app_nil_r; repeat split; try done; by eexists.
Qed.

(** X19. Every notification of the Data Transfer characteristic is kept.
    Over any run of calls and callbacks, [receivedChunks] is what it was
    followed by the values notified on that characteristic, in order and
    unchecked; nothing, not even a disconnection or a new scan, removes a
    chunk.  [chunksReceived] stays the number of kept chunks, and a peer
    key, once read, is never cleared. *)
Theorem received_chunks_accumulate (m : CentralManager.Manager)
    (evs : list CentralManager.Event) :
  CentralManager.receivedChunks (CentralManager.run m evs)
  = CentralManager.receivedChunks m ++ omap dataNotification evs
  ∧ (CentralManager.chunksReceived (CentralManager.syncProgress m)
     = Z.of_nat (length (CentralManager.receivedChunks m)) →
     CentralManager.chunksReceived
       (CentralManager.syncProgress (CentralManager.run m evs))
     = Z.of_nat (length (CentralManager.receivedChunks
                           (CentralManager.run m evs))))
  ∧ (is_Some (CentralManager.peerPublicKey (CentralManager.syncProgress m)) →
     is_Some (CentralManager.peerPublicKey
                (CentralManager.syncProgress (CentralManager.run m evs)))).
Proof.
  revert m. induction evs as [|ev evs IH]; intros m.
  { cbn. by rewrite app_nil_r. }
  rewrite run_cons.
  destruct (step_received m ev) as (Hchunks & Hcount & Hkey & _).
  destruct (IH (CentralManager.step m ev)) as (IHchunks & IHcount & IHkey).
  split; [|by auto].
  rewrite IHchunks, Hchunks, <- app_assoc. f_equal.
  cbn [omap list_omap]. by destruct (dataNotification ev).
Qed.

Lemma received_chunks_accumulate_witness :
  let m :=
    CentralManager.run (CentralManager.init true)
      [CentralManager.onDidUpdateValue CentralManager.dataTransferChar
         (Some [x01; x02]);
       CentralManager.callDisconnect;
       CentralManager.onDidUpdateValue CentralManager.dataTransferChar
         (Some [])] in
  CentralManager.receivedChunks m = [[x01; x02]; []]
  ∧ CentralManager.chunksReceived (CentralManager.syncProgress m) = 2.
Proof.
  intros m.
  destruct (received_chunks_accumulate (CentralManager.init true)
              [CentralManager.onDidUpdateValue CentralManager.dataTransferChar
                 (Some [x01; x02]);
               CentralManager.callDisconnect;
               CentralManager.onDidUpdateValue CentralManager.dataTransferChar
                 (Some [])])
    as (Hchunks & Hcount & _).
  split; [exact Hchunks | exact (Hcount eq_refl)].
Defined.

Lemma step_state (m : CentralManager.Manager) (ev : CentralManager.Event) :
  (CentralManager.state (CentralManager.step m ev) = CentralManager.complete →
   CentralManager.state m = CentralManager.complete ∨ completeNotification ev)
  ∧ (CentralManager.state (CentralManager.step m ev) = CentralManager.pairing →
     CentralManager.state m = CentralManager.pairing)
  ∧ (CentralManager.state (CentralManager.step m ev)
     = CentralManager.transferring →
     CentralManager.state m = CentralManager.transferring).
Proof.
  unfold completeNotification.
  destruct ev; manager_cases;
    repeat split; intros; simplify_eq; auto.
Qed.

(** X20. The states the manager can be in.  Over any run of calls and
    callbacks, the manager is in the state [complete] only if it was there
    before or the Sync Control characteristic delivered a value that
    starts with the opcode 0x04; and it never enters the states [pairing]
    and [transferring] by itself. *)
Theorem manager_states (m : CentralManager.Manager)
    (evs : list CentralManager.Event) :
  (CentralManager.state (CentralManager.run m evs) = CentralManager.complete →
   CentralManager.state m = CentralManager.complete
   ∨ Exists completeNotification evs)
  ∧ (CentralManager.state (CentralManager.run m evs) = CentralManager.pairing →
     CentralManager.state m = CentralManager.pairing)
  ∧ (CentralManager.state (CentralManager.run m evs)
     = CentralManager.transferring →
     CentralManager.state m = CentralManager.transferring).
Proof.
  revert m. induction evs as [|ev evs IH]; intros m.
  { cbn. auto. }
  rewrite run_cons.
  destruct (step_state m ev) as (Hc & Hp & Ht).
  destruct (IH (CentralManager.step m ev)) as (IHc & IHp & IHt).
  split; [|by auto].
  intros Hfinal. destruct (IHc Hfinal) as [Hstep|Hlater].
  - destruct (Hc Hstep) as [?|?]; [by left|]. right. by apply Exists_cons_hd.
  - right. by apply Exists_cons_tl.
Qed.

Lemma manager_states_witness :
  let evs :=
    [CentralManager.onDidConnect "desktop";
     CentralManager.onDidUpdateValue CentralManager.syncControlChar
       (Some [x04])] in
  CentralManager.state (CentralManager.run (CentralManager.init true) evs)
  = CentralManager.complete
  ∧ Exists completeNotification evs.
Proof.
  intros evs.
  split; [reflexivity|].
  destruct (proj1 (manager_states (CentralManager.init true) evs) eq_refl)
    as [Hinit|Hexists]; [discriminate Hinit | exact Hexists].
Defined.

(** X21. The list of discovered devices never shows a peripheral twice:
    if the identifiers in [discoveredDevices] are distinct, they still are
    after any run of calls and callbacks. *)
Theorem discovered_devices_unique (m : CentralManager.Manager)
    (evs : list CentralManager.Event) :
  NoDup (CentralManager.peripheral <$> CentralManager.discoveredDevices m) →
  NoDup (CentralManager.peripheral
           <$> CentralManager.discoveredDevices (CentralManager.run m evs)).
Proof.
  revert m. induction evs as [|ev evs IH]; intros m Hm; [done|].
  rewrite run_cons. apply IH.
  destruct ev; manager_cases; try done; try apply NoDup_nil_2.
  rewrite fmap_app. apply NoDup_app. split; [done|].
  split; [|apply NoDup_singleton].
  intros x Hx Hx'. apply list_elem_of_singleton in Hx' as ->.
  match goal with H : ¬ Exists _ _ |- _ => apply H end.
  apply list_elem_of_fmap in Hx as (d & Hd & Hin).
  apply Exists_exists. by exists d.
Qed.

Lemma discovered_devices_unique_witness :
  let m :=
    CentralManager.run (CentralManager.init true)
      [CentralManager.callStartScanning;
       CentralManager.onDidDiscover "desktop" (Some "Mac") None (-40);
       CentralManager.onDidDiscover "desktop" None (Some "VibeVault") (-42)] in
  NoDup (CentralManager.peripheral <$> CentralManager.discoveredDevices m).
Proof.
  intros m.
  apply (discovered_devices_unique (CentralManager.init true)).
  apply NoDup_nil_2.
Defined.

(** ** The orchestrator *)

Section Orchestrator.
Context `{CryptoKit}.

Lemma perform_cons (self : SyncFlow.Orchestrator) (a : SyncFlow.Action)
    (actions : list SyncFlow.Action) :
  SyncFlow.perform self (a :: actions)
  = SyncFlow.perform (SyncFlow.act self a) actions.
Proof. reflexivity. Qed.

(** X22. A transfer needs a pairing.  The session key is set by
    [submitPairingCode] alone: an orchestrator without one (a new one, or
    any one after [cancel]) has none after any sequence of other actions
    and callbacks, and [startDataTransfer] then only sets the state to
    the error "Not paired": it subscribes to nothing and sends no
    command. *)
Theorem transfer_needs_pairing (self : SyncFlow.Orchestrator)
    (actions : list SyncFlow.Action) :
  SyncFlow.sessionKey self = None →
  Forall (fun a => ¬ pairingAction a) actions →
  let s := SyncFlow.perform self actions in
  SyncFlow.sessionKey s = None
  ∧ SyncFlow.startDataTransfer s
    = SyncFlow.mkOrchestrator (SyncOrchestrator.error "Not paired")
        (SyncFlow.progress s) (SyncFlow.entriesSynced s) None
        (SyncFlow.reassembler s) (SyncFlow.bleManager s).
Proof.
  intros Hkey Hactions s.
  assert (Hnone : SyncFlow.sessionKey s = None).
  { subst s. revert self Hkey.
    induction actions as [|a actions IH]; intros self Hkey; [done|].
    apply Forall_cons in Hactions as [Ha Hactions].
    rewrite perform_cons. apply IH; [done|].
    destruct a; try (by destruct Ha); unfold_flow;
      repeat case_match; done. }
  split; [done|]. unfold SyncFlow.startDataTransfer. by rewrite Hnone.
Qed.

(** X23. What [startDataTransfer] sends once paired.  With a session key
    it always reports [transferring].  It asks for the notifications of
    the Data Transfer and of the Sync Control characteristic and writes
    the command 0x01, in this order, each only if that characteristic is
    known; without a connected peripheral it sends nothing and reports
    [transferring] all the same. *)
Theorem startDataTransfer_requests (self : SyncFlow.Orchestrator)
    (key : Data) :
  SyncFlow.sessionKey self = Some key →
  let m := SyncFlow.bleManager self in
  let s := SyncFlow.startDataTransfer self in
  SyncFlow.state s = SyncOrchestrator.transferring
  ∧ SyncFlow.progress s = "Starting transfer..."
  ∧ SyncFlow.sessionKey s = Some key
  ∧ CentralManager.requests (SyncFlow.bleManager s)
    = CentralManager.requests m
      ++ (if CentralManager.connectedPeripheral m is Some _
          then
            (if bool_decide (CentralManager.dataTransferChar
                             ∈ CentralManager.characteristics m)
             then [CentralManager.setNotifyValue
                     CentralManager.dataTransferChar]
             else [])
            ++ (if bool_decide (CentralManager.syncControlChar
                                ∈ CentralManager.characteristics m)
                then [CentralManager.setNotifyValue
                        CentralManager.syncControlChar;
                      CentralManager.writeValue
                        CentralManager.syncControlChar [x01]]
                else [])
          else []).
Proof.
  intros Hkey m s. subst s m. unfold SyncFlow.startDataTransfer.
  rewrite Hkey.
  cbn [SyncFlow.state SyncFlow.progress SyncFlow.sessionKey
       SyncFlow.bleManager].
  do 3 (split; [done|]).
  manager_cases; rewrite ?app_nil_r, <- ?app_assoc; done.
Qed.

Lemma act_never_reassembles (self : SyncFlow.Orchestrator)
    (a : SyncFlow.Action) :
  SyncFlow.entriesSynced (SyncFlow.act self a) = SyncFlow.entriesSynced self
  ∧ (SyncFlow.reassembler self = None →
     SyncFlow.reassembler (SyncFlow.act self a) = None)
  ∧ CentralManager.totalChunks
      (CentralManager.syncProgress (SyncFlow.bleManager (SyncFlow.act self a)))
    = CentralManager.totalChunks
        (CentralManager.syncProgress (SyncFlow.bleManager self))
  ∧ CentralManager.entriesSynced
      (CentralManager.syncProgress (SyncFlow.bleManager (SyncFlow.act self a)))
    = CentralManager.entriesSynced
        (CentralManager.syncProgress (SyncFlow.bleManager self)).
Proof.
  destruct a; unfold_flow.
  7: { destruct (step_received (SyncFlow.bleManager self) event)
         as (_ & _ & _ & Ht & He). by rewrite Ht, He. }
  all: repeat (case_match; simplify_eq);
    cbn [SyncFlow.entriesSynced SyncFlow.reassembler SyncFlow.bleManager];
    manager_cases; done.
Qed.

(** X24. The orchestrator never reassembles what it receives.  No action
    and no callback creates a reassembler or counts an entry: after any
    sequence of them [entriesSynced] is what it was, an absent reassembler
    is still absent, and the manager's [totalChunks] and [entriesSynced]
    are unchanged, however many chunks arrived. *)
Theorem received_data_is_never_reassembled (self : SyncFlow.Orchestrator)
    (actions : list SyncFlow.Action) :
  let s := SyncFlow.perform self actions in
  SyncFlow.entriesSynced s = SyncFlow.entriesSynced self
  ∧ (SyncFlow.reassembler self = None → SyncFlow.reassembler s = None)
  ∧ CentralManager.totalChunks
      (CentralManager.syncProgress (SyncFlow.bleManager s))
    = CentralManager.totalChunks
        (CentralManager.syncProgress (SyncFlow.bleManager self))
  ∧ CentralManager.entriesSynced
      (CentralManager.syncProgress (SyncFlow.bleManager s))
    = CentralManager.entriesSynced
        (CentralManager.syncProgress (SyncFlow.bleManager self)).
Proof.
  intros s. subst s. revert self.
  induction actions as [|a actions IH]; intros self; [done|].
  rewrite perform_cons.
  destruct (act_never_reassembles self a) as (He & Hr & Ht & Hm).
  destruct (IH (SyncFlow.act self a)) as (IHe & IHr & IHt & IHm).
  rewrite IHe, IHt, IHm. auto.
Qed.

End Orchestrator.

Lemma transfer_needs_pairing_witness :
  let paired :=
    SyncFlow.mkOrchestrator SyncOrchestrator.paired
      EmptyString 0 (Some (replicate 32 x07)) None
      (CentralManager.init true) in
  let s :=
    @SyncFlow.perform Toy.cryptoKit (SyncFlow.cancel paired)
      [SyncFlow.doStartSync;
       SyncFlow.doBLE (CentralManager.onDidConnect "desktop")] in
  SyncFlow.state (SyncFlow.startDataTransfer s)
  = SyncOrchestrator.error "Not paired".
Proof.
  intros paired s.
  destruct (@transfer_needs_pairing Toy.cryptoKit (SyncFlow.cancel paired)
              [SyncFlow.doStartSync;
               SyncFlow.doBLE (CentralManager.onDidConnect "desktop")]
              eq_refl)
    as [_ Hstart].
  { repeat constructor; intros []. }
  fold s in Hstart. rewrite Hstart. reflexivity.
Defined.

Lemma startDataTransfer_requests_witness :
  let m :=
    CentralManager.run (CentralManager.init true)
      [CentralManager.onDidConnect "desktop";
       CentralManager.onDidDiscoverCharacteristics
         [CentralManager.modeChar; CentralManager.pairingChar;
          CentralManager.syncControlChar; CentralManager.dataTransferChar]] in
  let self :=
    SyncFlow.mkOrchestrator SyncOrchestrator.paired
      EmptyString 0 (Some (replicate 32 x07)) None m in
  CentralManager.requests (SyncFlow.bleManager (SyncFlow.startDataTransfer self))
  = [CentralManager.discoverServices "desktop";
     CentralManager.setNotifyValue CentralManager.dataTransferChar;
     CentralManager.setNotifyValue CentralManager.syncControlChar;
     CentralManager.writeValue CentralManager.syncControlChar [x01]].
Proof.
  intros m self.
  exact (proj2 (proj2 (proj2
           (startDataTransfer_requests self (replicate 32 x07)
              eq_refl)))).
Defined.

Lemma received_data_is_never_reassembled_witness :
  let s :=
    @SyncFlow.perform Toy.cryptoKit (SyncFlow.init true)
      [SyncFlow.doStartSync;
       SyncFlow.doBLE (CentralManager.onDidConnect "desktop");
       SyncFlow.doBLE
         (CentralManager.onDidUpdateValue CentralManager.dataTransferChar
            (Some [x00; x00; x01; x00]))] in
  SyncFlow.reassembler s = None
  ∧ CentralManager.receivedChunks (SyncFlow.bleManager s)
    = [[x00; x00; x01; x00]].
Proof.
  intros s. split; [|reflexivity].
  apply (proj1 (proj2 (@received_data_is_never_reassembled Toy.cryptoKit
                         (SyncFlow.init true) _))).
  reflexivity.
Defined.

(** X25. The pairing payload goes out before the key agreement.  With a
    peer key that parses, [submitPairingCode] hands the manager one
    payload of 65 bytes, the own compressed public key followed by the
    HMAC of it under the code, and the manager writes it if and only if a
    peripheral is connected and the Pairing characteristic is known.  The
    outcome of the key agreement decides the state afterwards: [paired]
    with the derived session key, also when nothing was written, or the
    error with the session key as it was, also when the payload has been
    written. *)
Theorem pairing_payload_sent_before_key_agreement `{CryptoKit}
    `{!P256Contract} (freshKey : P256_PrivateKey)
    (self : SyncFlow.Orchestrator) (code : string) (peerData : Data)
    (peerKey : P256_PublicKey) :
  CentralManager.peerPublicKey
    (CentralManager.syncProgress (SyncFlow.bleManager self)) = Some peerData →
  PublicKey_compactRepresentation peerData = success peerKey →
  let m := SyncFlow.bleManager self in
  let s := SyncFlow.submitPairingCode freshKey self code in
  let own := compressedRepresentation (publicKey freshKey) in
  let payload := own ++ CryptoService.computePairingHMAC code own in
  length payload = 65%nat
  ∧ CentralManager.requests (SyncFlow.bleManager s)
    = CentralManager.requests m
      ++ (if bool_decide (CentralManager.pairingChar
                          ∈ CentralManager.characteristics m)
          then if CentralManager.connectedPeripheral m is Some _
               then [CentralManager.writeValue CentralManager.pairingChar
                       payload]
               else []
          else [])
  ∧ match CryptoService.deriveSessionKey freshKey peerKey with
    | success key =>
        SyncFlow.state s = SyncOrchestrator.paired
        ∧ SyncFlow.sessionKey s = Some key
    | failure e =>
        SyncFlow.state s
        = SyncOrchestrator.error
            ("Pairing failed: " +:+ localizedDescription e)
        ∧ SyncFlow.sessionKey s = SyncFlow.sessionKey self
    end.
Proof.
  intros Hpeer Hparse m s own payload.
  split.
  { subst payload own. unfold CryptoService.computePairingHMAC.
    rewrite length_app, compressedRepresentation_length, HMAC_SHA256_length.
    done. }
  subst s. unfold SyncFlow.submitPairingCode. rewrite Hpeer, Hparse.
  fold own. fold payload. fold m.
  split.
  - destruct (CryptoService.deriveSessionKey freshKey peerKey);
      cbn [SyncFlow.bleManager]; manager_cases;
      rewrite ?app_nil_r; done.
  - by destruct (CryptoService.deriveSessionKey freshKey peerKey).
Qed.

Lemma pairing_payload_sent_before_key_agreement_witness :
  let m :=
    CentralManager.run (CentralManager.init true)
      [CentralManager.onDidConnect "desktop";
       CentralManager.onDidDiscoverCharacteristics
         [CentralManager.modeChar; CentralManager.pairingChar];
       CentralManager.onDidUpdateValue CentralManager.pairingChar
         (Some (replicate 32 x11))] in
  let self :=
    SyncFlow.mkOrchestrator SyncOrchestrator.pairing EmptyString 0 None None
      m in
  let s :=
    @SyncFlow.submitPairingCode Toy.cryptoKit (replicate 32 x05) self
      "123456" in
  SyncFlow.state s = SyncOrchestrator.paired
  ∧ ∃ payload,
      length payload = 65%nat
      ∧ CentralManager.requests (SyncFlow.bleManager s)
        = [CentralManager.discoverServices "desktop";
           CentralManager.writeValue CentralManager.pairingChar payload].
Proof.
  intros m self s.
  destruct (@pairing_payload_sent_before_key_agreement Toy.cryptoKit Toy_P256
              (replicate 32 x05) self "123456" (replicate 32 x11)
              (replicate 32 x11) eq_refl eq_refl)
    as (Hlen & Hreq & Hstate).
  split; [exact (proj1 Hstate)|].
  eexists. split; [exact Hlen | exact Hreq].
Defined.

(** ** Migrations *)

(** X26. Opening the database again loses nothing.  [runMigrations] never
    touches the users and the entries and leaves a store that has a
    profile as it is; on a store without profiles it inserts the profile
    "Personal" with id 1.  So a second run changes nothing, and after
    [setup] on a new device the table of profiles holds this one row. *)
Theorem runMigrations_idempotent (now again : string)
    (store : DatabaseStore.Store) :
  let migrated := DatabaseStore.runMigrations now store in
  DatabaseStore.runMigrations again migrated = migrated
  ∧ DatabaseStore.database migrated = DatabaseStore.database store
  ∧ (DatabaseStore.profiles store ≠ [] → migrated = store)
  ∧ (DatabaseStore.profiles store = [] →
     DatabaseStore.profiles migrated = [mkProfile (Some 1) "Personal" now])
  ∧ DatabaseStore.profiles (DatabaseStore.setup now)
    = [mkProfile (Some 1) "Personal" now].
Proof.
  intros migrated. subst migrated. unfold DatabaseStore.runMigrations.
  destruct store as [db [|p ps]]; cbn [DatabaseStore.profiles length].
  - rewrite (decide_True (P := Z.of_nat 0 = 0)) by done.
    cbn [DatabaseStore.profiles length DatabaseStore.database].
    rewrite (decide_False (P := Z.of_nat 1 = 0)) by done.
    repeat split; done.
  - rewrite (decide_False (P := Z.of_nat (S (length ps)) = 0)) by lia.
    cbn [DatabaseStore.profiles length].
    rewrite (decide_False (P := Z.of_nat (S (length ps)) = 0)) by lia.
    repeat split; done.
Qed.

Lemma runMigrations_idempotent_witness :
  let store := DatabaseStore.setup "2026-01-01 00:00:00" in
  DatabaseStore.runMigrations "2026-11-02 10:00:00" store = store.
Proof.
  intros store.
  destruct (runMigrations_idempotent "2026-11-02 10:00:00"
              "2026-11-02 10:00:00" store) as (_ & _ & Hsame & _).
  apply Hsame. discriminate.
Defined.

Lemma logout_disables_biometric_unlock_witness :
  let kc : KeychainService.Keychain :=
    {[ "vault_encryption_key" := KeychainService.mkItem (replicate 32 x07) true;
       "session_active" := KeychainService.mkItem [x01] false ]} in
  (AuthServiceKeychain.logout lockedService kc).2 !! "session_active"
  = kc !! "session_active".
Proof.
  intros kc.
  destruct (logout_disables_biometric_unlock lockedService lockedService kc
              (success true) None) as (_ & _ & _ & _ & Hother & _).
  apply Hother. discriminate.
Defined.
